(** * Server-sent events over one HTTP response: a model of package [sse]

    The development follows [sse.go]: the [Message] value, the fluent
    [MessageBuilder], the [Connection] and the goroutine that [Upgrade]
    spawns to own the response writer.  The older copy of the package that
    lives next to it in the repository is modelled in [Module Part000].

    Go strings are byte sequences; a [[]byte] value is a slice header that
    points into an array in memory, which it may share with other slices;
    [fmt.Fprintf] with the verb [%s] writes the operand's bytes as they
    are. *)

From Stdlib Require Import Strings.Byte.
From stdpp Require Import gmap strings list.

Local Open Scope string_scope.
Local Open Scope list_scope.

(** ** Bytes and formatting *)

Definition bytes_of (s : string) : list byte := String.list_byte_of_string s.

(** The newline byte, written ["\n"] in the Go source. *)
Definition LF : byte := x0a.

(** [fmt.Sprintf] restricted to what the package uses: literal bytes, the
    verb [%s] applied to a string or byte-slice operand, and [%%].  A [%s]
    without an operand prints Go's [%!s(MISSING)] marker and a trailing [%]
    prints [%!(NOVERB)]; other verbs and surplus operands do not occur in
    the package and are left alone. *)
Fixpoint Sprintf (format : list byte) (args : list (list byte)) : list byte :=
  match format with
  | [] => []
  | c :: rest =>
      if Byte.eqb c x25 then
        match rest with
        | [] => bytes_of "%!(NOVERB)"
        | v :: rest' =>
            if Byte.eqb v x73 then
              match args with
              | a :: args' => a ++ Sprintf rest' args'
              | [] => bytes_of "%!s(MISSING)" ++ Sprintf rest' []
              end
            else if Byte.eqb v x25 then x25 :: Sprintf rest' args
            else c :: v :: Sprintf rest' args
        end
      else c :: Sprintf rest args
  end.

(** The lines of a byte sequence: the pieces between its newlines. *)
Fixpoint split_lines (bs : list byte) : list (list byte) :=
  match bs with
  | [] => [[]]
  | b :: bs' =>
      if Byte.eqb b LF then [] :: split_lines bs'
      else match split_lines bs' with
           | l :: ls => (b :: l) :: ls
           | [] => [[b]]
           end
  end.

(** The three format strings of the writer loop. *)
Definition fmt_id : list byte := bytes_of "id: %s" ++ [LF].
Definition fmt_event : list byte := bytes_of "event: %s" ++ [LF].
Definition fmt_data : list byte := bytes_of "data: %s" ++ [LF; LF].

(** ** Errors *)

(** A Go [error] is observed through its message. *)
Record error := errors_New { Error : string }.

(** ** Memory and slices *)

(** A byte array in memory.  [caller_held] tells whether code outside the
    package holds a reference to it (a buffer a caller made and may write
    to); the arrays made inside the package, by [[]byte(data)] and by
    [json.Marshal], are reachable through the unexported [data] field only. *)
Record Array := mkArray {
  caller_held : bool;
  cells : list byte
}.

(** Memory: the arrays by address. *)
Abbreviation Heap := (list Array).

(** A slice header: the array it points into, where it starts and how many
    bytes it spans.  Copying a slice copies the header, not the array. *)
Record Slice := mkSlice {
  array : nat;
  off : nat;
  len : nat
}.

(** The nil slice, the zero value of [[]byte]. *)
Definition nil_slice : Slice := {| array := 0; off := 0; len := 0 |}.

(** The bytes a slice holds in a given memory. *)
Definition bytes_at (h : Heap) (s : Slice) : list byte :=
  match h !! array s with
  | Some a => take (len s) (drop (off s) (cells a))
  | None => []
  end.

(** A slice that a caller can hand over: empty, or within the bounds of an
    array the caller holds. *)
Definition caller_slice (h : Heap) (s : Slice) : bool :=
  (len s =? 0)%nat
  || match h !! array s with
     | Some a => caller_held a && (off s + len s <=? length (cells a))%nat
     | None => false
     end.

(** A new array: it gets the next address. *)
Definition alloc (held : bool) (d : list byte) (h : Heap) : Heap :=
  h ++ [{| caller_held := held; cells := d |}].

(** The slice over the whole of the array that [alloc] adds to [h]. *)
Definition fresh_slice (d : list byte) (h : Heap) : Slice :=
  {| array := length h; off := 0; len := length d |}.

(** [buf[i] = b] on an array. *)
Definition poke (a i : nat) (b : byte) (h : Heap) : Heap :=
  match h !! a with
  | Some arr => <[a := {| caller_held := caller_held arr;
                          cells := <[i := b]> (cells arr) |}]> h
  | None => h
  end.

(** ** Message *)

(** The struct [Message]; its [data] field is a slice header. *)
Record Message := mkMessage {
  id : string;
  event : string;
  data : Slice
}.

Definition set_id (s : string) (m : Message) : Message :=
  {| id := s; event := event m; data := data m |}.
Definition set_event (s : string) (m : Message) : Message :=
  {| id := id m; event := s; data := data m |}.
Definition set_data (d : Slice) (m : Message) : Message :=
  {| id := id m; event := event m; data := d |}.

(** [&Message{}]: the zero value. *)
Definition zero_Message : Message :=
  {| id := ""; event := ""; data := nil_slice |}.

(** ** The response writer *)

(** What the response writer is asked to do, in call order. *)
Inductive SinkEvent :=
| EvSetHeader (key value : string)
| EvWrite (p : list byte)
| EvFlush.

(** [http.ResponseWriter].  [flusher] tells whether the dynamic type also
    implements [http.Flusher]; [header] is the header map; [events] is the
    trace of calls received so far, oldest first; [faults] gives the outcome
    of the coming [Write] calls ([None] is success, and so is an exhausted
    list). *)
Record ResponseWriter := mkWriter {
  flusher : bool;
  header : gmap string (list string);
  events : list SinkEvent;
  faults : list (option error)
}.

(** [writer.Header().Set(key, value)]; the three keys used by the package
    are already in canonical form. *)
Definition Header_Set (key value : string) (w : ResponseWriter) : ResponseWriter :=
  {| flusher := flusher w;
     header := <[key := [value]]> (header w);
     events := events w ++ [EvSetHeader key value];
     faults := faults w |}.

Definition Write (p : list byte) (w : ResponseWriter) : ResponseWriter * option error :=
  match faults w with
  | [] =>
      ({| flusher := flusher w; header := header w;
          events := events w ++ [EvWrite p]; faults := [] |}, None)
  | r :: fs =>
      ({| flusher := flusher w; header := header w;
          events := events w ++ [EvWrite p]; faults := fs |}, r)
  end.

Definition Flush (w : ResponseWriter) : ResponseWriter :=
  {| flusher := flusher w; header := header w;
     events := events w ++ [EvFlush]; faults := faults w |}.

(** [fmt.Fprintf(writer, format, args...)]: format, then one [Write]. *)
Definition Fprintf (w : ResponseWriter) (format : list byte) (args : list (list byte))
  : ResponseWriter * option error :=
  Write (Sprintf format args) w.

(** The bytes handed to [Write], in order. *)
Fixpoint wire (evs : list SinkEvent) : list byte :=
  match evs with
  | [] => []
  | EvWrite p :: evs' => p ++ wire evs'
  | _ :: evs' => wire evs'
  end.

(** ** The writer loop's surroundings *)

(** The response writer together with the error plumbing of [Upgrade]:
    [receivers] counts the goroutines blocked receiving from [errorChannel],
    [delivered] lists the errors handed to them and [logged] the lines given
    to [log.Println]. *)
Record Env := mkEnv {
  sink : ResponseWriter;
  receivers : nat;
  delivered : list error;
  logged : list string
}.

Definition with_sink (w : ResponseWriter) (e : Env) : Env :=
  {| sink := w; receivers := receivers e;
     delivered := delivered e; logged := logged e |}.

(** [handleError]: a non-blocking send on the error channel, else a log line. *)
Definition handleError (err : option error) (e : Env) : Env :=
  match err with
  | None => e
  | Some x =>
      match receivers e with
      | S n => {| sink := sink e; receivers := n;
                  delivered := delivered e ++ [x]; logged := logged e |}
      | O => {| sink := sink e; receivers := O;
                delivered := delivered e;
                logged := logged e ++ ["sse write error: " +:+ Error x] |}
      end
  end.

(** [Fprintf] followed by [handleError]. *)
Definition emit (format : list byte) (arg : list byte) (e : Env) : Env :=
  let '(w, err) := Fprintf (sink e) format [arg] in
  handleError err (with_sink w e).

(** The [case message := <-messageChannel] branch of the loop, run in
    memory [h]: the bytes of [message.data] are read when they are
    formatted. *)
Definition on_message (h : Heap) (message : Message) (e : Env) : Env :=
  let e1 := if (0 <? String.length (id message))%nat
            then emit fmt_id (bytes_of (id message)) e else e in
  let e2 := if (0 <? String.length (event message))%nat
            then emit fmt_event (bytes_of (event message)) e1 else e1 in
  let e3 := emit fmt_data (bytes_at h (data message)) e2 in
  with_sink (Flush (sink e3)) e3.

(** The calls that the loop makes on the response writer for one message,
    and the bytes it hands to [Write] in doing so. *)
Definition calls (h : Heap) (message : Message) (e : Env) : list SinkEvent :=
  drop (length (events (sink e))) (events (sink (on_message h message e))).

Definition written (h : Heap) (message : Message) (e : Env) : list byte :=
  wire (calls h message e).

(** The errors among the outcomes of some [Write] calls, and the line that
    [handleError] gives to [log.Println] for one of them. *)
Definition failures (outcomes : list (option error)) : list error :=
  omap (fun r => r) outcomes.

Definition log_line (x : error) : string := "sse write error: " +:+ Error x.

(** How many [Fprintf] calls the loop makes for a message. *)
Definition writes_for (message : Message) : nat :=
  (if (0 <? String.length (id message))%nat then 1 else 0)
  + (if (0 <? String.length (event message))%nat then 1 else 0)
  + 1.

(** The bookkeeping of [k] writes that lead from [e] to [e']: [k] outcomes
    are used up, and each error among them went to a waiting receiver while
    there was one, else to the log. *)
Definition accounted (k : nat) (e e' : Env) : Prop :=
  faults (sink e') = drop k (faults (sink e))
  /\ receivers e' = receivers e - length (failures (take k (faults (sink e))))
  /\ delivered e' =
     delivered e ++ take (receivers e) (failures (take k (faults (sink e))))
  /\ logged e' =
     logged e
     ++ (log_line <$> drop (receivers e) (failures (take k (faults (sink e))))).

(** ** Connection and Upgrade *)

(** Channels are named by the order in which [make] created them. *)
Record Connection := mkConnection {
  errors : nat;
  messages : nat;
  shutdown : nat;
  isOpen : bool
}.

Definition close_conn (c : Connection) : Connection :=
  {| errors := errors c; messages := messages c;
     shutdown := shutdown c; isOpen := false |}.

(** The goroutine that [Upgrade] starts: blocked in its [select], holding
    the message it has just received, or returned. *)
Inductive Writer :=
| Waiting
| Holding (message : Message)
| Stopped.

(** What a call of [Upgrade] leaves behind: the response writer, the number
    of channels made so far, the [Connection] it allocated and the goroutine
    it started (if any), and the returned error. *)
Record Upgraded := mkUpgraded {
  up_writer : ResponseWriter;
  up_nchan : nat;
  up_conn : option Connection;
  up_go : option Writer;
  up_err : option error
}.

(** [Upgrade(writer, request)].  The request is only captured by the
    goroutine, which waits on its context; see [ctx_done] below. *)
Definition Upgrade (writer : ResponseWriter) (nchan : nat) : Upgraded :=
  if flusher writer then
    let errorChannel := nchan in
    let messageChannel := S nchan in
    let shutdownChannel := S (S nchan) in
    let sseConnection :=
      {| errors := errorChannel; messages := messageChannel;
         shutdown := shutdownChannel; isOpen := true |} in
    let w1 := Header_Set "Content-Type" "text/event-stream" writer in
    let w2 := Header_Set "Cache-Control" "no-cache" w1 in
    let w3 := Header_Set "Connection" "keep-alive" w2 in
    let w4 := Flush w3 in
    {| up_writer := w4; up_nchan := S (S (S nchan));
       up_conn := Some sseConnection; up_go := Some Waiting; up_err := None |}
  else
    {| up_writer := writer; up_nchan := nchan; up_conn := None; up_go := None;
       up_err := Some (errors_New "streaming not supported") |}.

(** ** The older copy of the package *)

Module Part000.

Record Connection := mkConnection {
  messages : nat;
  shutdown : nat;
  isOpen : bool
}.

Record Upgraded := mkUpgraded {
  up_writer : ResponseWriter;
  up_nchan : nat;
  up_conn : option Connection;
  up_go : option Writer;
  up_err : option error
}.

(** No error channel and no flush after the headers. *)
Definition Upgrade (writer : ResponseWriter) (nchan : nat) : Upgraded :=
  if flusher writer then
    let sseConnection :=
      {| messages := nchan; shutdown := S nchan; isOpen := true |} in
    let w1 := Header_Set "Content-Type" "text/event-stream" writer in
    let w2 := Header_Set "Cache-Control" "no-cache" w1 in
    let w3 := Header_Set "Connection" "keep-alive" w2 in
    {| up_writer := w3; up_nchan := S (S nchan);
       up_conn := Some sseConnection; up_go := Some Waiting; up_err := None |}
  else
    {| up_writer := writer; up_nchan := nchan; up_conn := None; up_go := None;
       up_err := Some (errors_New "streaming not supported") |}.

(** Its loop ignores what [Fprintf] returns. *)
Definition on_message (h : Heap) (message : Message) (w : ResponseWriter)
  : ResponseWriter :=
  let w1 := if (0 <? String.length (id message))%nat
            then fst (Fprintf w fmt_id [bytes_of (id message)]) else w in
  let w2 := if (0 <? String.length (event message))%nat
            then fst (Fprintf w1 fmt_event [bytes_of (event message)]) else w1 in
  let w3 := fst (Fprintf w2 fmt_data [bytes_at h (data message)]) in
  Flush w3.

Definition calls (h : Heap) (message : Message) (w : ResponseWriter)
  : list SinkEvent :=
  drop (length (events w)) (events (on_message h message w)).

Definition written (h : Heap) (message : Message) (w : ResponseWriter)
  : list byte :=
  wire (calls h message w).

End Part000.

(** ** Producers, the loop and their interleavings *)

(** Where a calling goroutine stands.  [Idle r]: outside the package, [r]
    being what its last [Send*] call returned; [AtSend mb]: it entered
    [connection.send] with the message at address [mb]; [AtHandoff mb]: it
    passed the [isOpen] test; [Offering m]: it is blocked in
    [connection.messages <- *message] with the copy [m]; [Closing]: it is
    blocked in [connection.shutdown <- true]. *)
Inductive Producer :=
| Idle (r : option (option error))
| AtSend (mb : nat)
| AtHandoff (mb : nat)
| Offering (m : Message)
| Closing.

(** One connection at work.  [store] holds the [Message] structs the
    builders point to; [heap] is the memory their [data] slices point into;
    [ctx_done] tells whether the channel [request.Context().Done()] is
    closed. *)
Record State := mkState {
  env : Env;
  conn : Connection;
  loop : Writer;
  ctx_done : bool;
  store : gmap nat Message;
  heap : Heap;
  producers : gmap nat Producer
}.

Definition with_env (e : Env) (st : State) : State :=
  {| env := e; conn := conn st; loop := loop st; ctx_done := ctx_done st;
     store := store st; heap := heap st; producers := producers st |}.
Definition with_conn (c : Connection) (st : State) : State :=
  {| env := env st; conn := c; loop := loop st; ctx_done := ctx_done st;
     store := store st; heap := heap st; producers := producers st |}.
Definition with_loop (l : Writer) (st : State) : State :=
  {| env := env st; conn := conn st; loop := l; ctx_done := ctx_done st;
     store := store st; heap := heap st; producers := producers st |}.
Definition with_done (b : bool) (st : State) : State :=
  {| env := env st; conn := conn st; loop := loop st; ctx_done := b;
     store := store st; heap := heap st; producers := producers st |}.
Definition with_store (s : gmap nat Message) (st : State) : State :=
  {| env := env st; conn := conn st; loop := loop st; ctx_done := ctx_done st;
     store := s; heap := heap st; producers := producers st |}.
Definition with_heap (h : Heap) (st : State) : State :=
  {| env := env st; conn := conn st; loop := loop st; ctx_done := ctx_done st;
     store := store st; heap := h; producers := producers st |}.
Definition with_producer (tid : nat) (p : Producer) (st : State) : State :=
  {| env := env st; conn := conn st; loop := loop st; ctx_done := ctx_done st;
     store := store st; heap := heap st;
     producers := <[tid := p]> (producers st) |}.

(** The system right after a successful [Upgrade], with the given callers. *)
Definition start (u : Upgraded) (callers : gmap nat Producer) : option State :=
  match up_conn u, up_go u with
  | Some c, Some l =>
      Some {| env := {| sink := up_writer u; receivers := 0;
                        delivered := []; logged := [] |};
              conn := c; loop := l; ctx_done := false;
              store := ∅; heap := []; producers := callers |}
  | _, _ => None
  end.

(** [connection.IsOpen()]. *)
Definition IsOpen (st : State) : bool := isOpen (conn st).

(** A stand-in for the values handed to [SendJson] in examples. *)
Inductive Sample :=
| Encodable (json : list byte)
| Unsupported (why : string).

Definition sample_Marshal (v : Sample) : list byte + error :=
  match v with
  | Encodable json => inl json
  | Unsupported why => inr (errors_New why)
  end.

Definition sample_writer : ResponseWriter :=
  {| flusher := true; header := ∅; events := []; faults := [] |}.

Definition sample_env : Env :=
  {| sink := sample_writer; receivers := 0; delivered := []; logged := [] |}.

(** A memory with three buffers made by callers, holding [data], [token]
    and two paragraphs [a] and [b], and one array made inside the package. *)
Definition sample_heap : Heap :=
  [ {| caller_held := true; cells := bytes_of "data" |};
    {| caller_held := true; cells := bytes_of "token" |};
    {| caller_held := true; cells := bytes_of "a" ++ [LF; LF] ++ bytes_of "b" |};
    {| caller_held := false; cells := bytes_of "{}" |} ].

(** A memory with one caller's buffer holding [x], a newline and [id: ], and
    a message without id or event whose data is that buffer. *)
Definition injecting_heap : Heap :=
  [ {| caller_held := true; cells := bytes_of "x" ++ [LF] ++ bytes_of "id: " |} ].

Definition injecting_message : Message :=
  {| id := ""; event := ""; data := {| array := 0; off := 0; len := 6 |} |}.

(** The message of the README: id [id], event [event], data [data]. *)
Definition readme_message : Message :=
  {| id := "id"; event := "event";
     data := {| array := 0; off := 0; len := 4 |} |}.

(** A message with neither id nor event, and one whose data holds an empty
    line. *)
Definition bare_message : Message :=
  {| id := ""; event := ""; data := {| array := 1; off := 0; len := 5 |} |}.


(** An open connection with a waiting loop: caller 0 is inside [send] with
    the builder at address 0, caller 1 passed the test of [send] with the
    builder at address 1, caller 2 is outside the package and caller 3 is
    inside [Close]. *)
Definition open_state : State :=
  {| env := sample_env;
     conn := {| errors := 0; messages := 1; shutdown := 2; isOpen := true |};
     loop := Waiting;
     ctx_done := false;
     store := {[ 0 := readme_message; 1 := bare_message ]};
     heap := sample_heap;
     producers := {[ 0 := AtSend 0; 1 := AtHandoff 1; 2 := Idle None; 3 := Closing ]} |}.

(** The same connection after the client went away and the loop returned,
    with callers 0 and 1 inside [send]. *)
Definition closed_state : State :=
  {| env := sample_env;
     conn := {| errors := 0; messages := 1; shutdown := 2; isOpen := false |};
     loop := Stopped;
     ctx_done := true;
     store := {[ 0 := readme_message; 1 := bare_message ]};
     heap := sample_heap;
     producers := {[ 0 := AtSend 0; 1 := AtSend 1; 2 := Idle None ]} |}.

(** The message the loop holds between receiving and writing it. *)
Definition held (w : Writer) : list Message :=
  match w with
  | Holding m => [m]
  | _ => []
  end.

(** A slice that points into memory: empty, or into an array that exists. *)
Definition slice_in (h : Heap) (s : Slice) : Prop :=
  len s = 0 \/ array s < length h.

(** A state in which every message, in a builder, on offer or held by the
    loop, has its data in memory. *)
Definition settled (st : State) : Prop :=
  (forall mb m, store st !! mb = Some m -> slice_in (heap st) (data m))
  /\ (forall tid m, producers st !! tid = Some (Offering m) ->
                    slice_in (heap st) (data m))
  /\ (forall m, loop st = Holding m -> slice_in (heap st) (data m)).

(** A caller that waits for the loop: inside the send on the message channel
    or inside [Close]. *)
Definition waits_for_loop (p : Producer) : bool :=
  match p with
  | AtHandoff _ | Offering _ | Closing => true
  | _ => false
  end.

(** The open connection with a response writer whose next write fails, then
    one that succeeds, then one that fails again. *)
Definition flaky_state : State :=
  with_env
    {| sink := {| flusher := true; header := ∅; events := [];
                  faults := [Some (errors_New "broken pipe"); None;
                             Some (errors_New "reset by peer")] |};
       receivers := 0; delivered := []; logged := [] |}
    open_state.

(** The connection after the loop returned, with caller 0 still offering a
    message, caller 1 inside [Close] and caller 2 outside the package. *)
Definition stranded_state : State :=
  {| env := sample_env;
     conn := {| errors := 0; messages := 1; shutdown := 2; isOpen := false |};
     loop := Stopped;
     ctx_done := true;
     store := {[ 0 := readme_message; 1 := bare_message ]};
     heap := sample_heap;
     producers := {[ 0 := Offering readme_message; 1 := Closing; 2 := Idle None ]} |}.

(** The open connection at the moment the request context is done while
    caller 0 offers a message. *)
Definition racing_state : State :=
  with_done true (with_producer 0 (Offering bare_message) open_state).

(** A single caller, outside the package. *)
Definition one_caller : gmap nat Producer := {[ 0 := Idle None ]}.

(** The error of [send] on a closed connection. *)
Definition closed_error : error := errors_New "connection is closed".

Section Pipeline.

(** [encoding/json] is not part of the package: the values given to
    [SendJson] and [json.Marshal] are parameters. *)
Variable Value : Type.
Variable json_Marshal : Value -> list byte + error.

(** The atomic steps.  [Call*] are the exported methods entered by caller
    [tid] on the builder whose message lives at [mb]; [SendTest] and
    [SendEval] are the test and the operand evaluation inside
    [connection.send]; [Loop*] are the branches of the goroutine's
    [select] and the body of its message branch; [Cancel] closes the
    request context; [Listen] is a goroutine starting to receive from the
    error channel.  [MakeBuffer] and [WriteBuffer] are the caller's own
    code at work on its byte buffers: making one, and storing byte [b] at
    index [i] of the buffer at address [a]. *)
Inductive Label :=
| CallBuildMessage (tid mb : nat)
| CallWithId (tid mb : nat) (s : string)
| CallWithEvent (tid mb : nat) (s : string)
| CallSendBytes (tid mb : nat) (d : Slice)
| CallSendString (tid mb : nat) (s : string)
| CallSendJson (tid mb : nat) (v : Value)
| CallClose (tid : nat)
| SendTest (tid : nat)
| SendEval (tid : nat)
| LoopMessage (tid : nat)
| LoopWrite
| LoopShutdown (tid : nat)
| LoopDone
| Cancel
| Listen
| MakeBuffer (tid : nat) (d : list byte)
| WriteBuffer (tid a i : nat) (b : byte).

(** An idle caller updates the message a builder points to. *)
Definition update_message (tid mb : nat) (f : Message -> Message)
    (next : Producer -> Producer) (st : State) : option State :=
  match producers st !! tid, store st !! mb with
  | Some (Idle r), Some m =>
      Some (with_producer tid (next (Idle r))
              (with_store (<[mb := f m]> (store st)) st))
  | _, _ => None
  end.

Definition exec (l : Label) (st : State) : option State :=
  match l with
  | CallBuildMessage tid mb =>
      match producers st !! tid, store st !! mb with
      | Some (Idle _), None =>
          Some (with_store (<[mb := zero_Message]> (store st)) st)
      | _, _ => None
      end
  | CallWithId tid mb s => update_message tid mb (set_id s) (fun p => p) st
  | CallWithEvent tid mb s => update_message tid mb (set_event s) (fun p => p) st
  | CallSendBytes tid mb d =>
      if caller_slice (heap st) d
      then update_message tid mb (set_data d) (fun _ => AtSend mb) st
      else None
  | CallSendString tid mb s =>
      update_message tid mb (set_data (fresh_slice (bytes_of s) (heap st)))
        (fun _ => AtSend mb) (with_heap (alloc false (bytes_of s) (heap st)) st)
  | CallSendJson tid mb v =>
      match json_Marshal v with
      | inr err =>
          match producers st !! tid, store st !! mb with
          | Some (Idle _), Some _ =>
              Some (with_producer tid (Idle (Some (Some err))) st)
          | _, _ => None
          end
      | inl d =>
          update_message tid mb (set_data (fresh_slice d (heap st)))
            (fun _ => AtSend mb) (with_heap (alloc false d (heap st)) st)
      end
  | CallClose tid =>
      match producers st !! tid with
      | Some (Idle _) => Some (with_producer tid Closing st)
      | _ => None
      end
  | SendTest tid =>
      match producers st !! tid with
      | Some (AtSend mb) =>
          if isOpen (conn st)
          then Some (with_producer tid (AtHandoff mb) st)
          else Some (with_producer tid
                       (Idle (Some (Some (errors_New "connection is closed")))) st)
      | _ => None
      end
  | SendEval tid =>
      match producers st !! tid with
      | Some (AtHandoff mb) =>
          match store st !! mb with
          | Some m => Some (with_producer tid (Offering m) st)
          | None => None
          end
      | _ => None
      end
  | LoopMessage tid =>
      match loop st, producers st !! tid with
      | Waiting, Some (Offering m) =>
          Some (with_producer tid (Idle (Some None)) (with_loop (Holding m) st))
      | _, _ => None
      end
  | LoopWrite =>
      match loop st with
      | Holding m =>
          Some (with_loop Waiting (with_env (on_message (heap st) m (env st)) st))
      | _ => None
      end
  | LoopShutdown tid =>
      match loop st, producers st !! tid with
      | Waiting, Some Closing => Some (with_producer tid (Idle None) st)
      | _, _ => None
      end
  | LoopDone =>
      match loop st with
      | Waiting =>
          if ctx_done st
          then Some (with_loop Stopped (with_conn (close_conn (conn st)) st))
          else None
      | _ => None
      end
  | Cancel => Some (with_done true st)
  | Listen =>
      Some (with_env {| sink := sink (env st);
                        receivers := S (receivers (env st));
                        delivered := delivered (env st);
                        logged := logged (env st) |} st)
  | MakeBuffer tid d =>
      match producers st !! tid with
      | Some (Idle _) => Some (with_heap (alloc true d (heap st)) st)
      | _ => None
      end
  | WriteBuffer tid a i b =>
      match producers st !! tid, heap st !! a with
      | Some (Idle _), Some arr =>
          if caller_held arr && (i <? length (cells arr))%nat
          then Some (with_heap (poke a i b (heap st)) st)
          else None
      | _, _ => None
      end
  end.

(** A schedule is a list of labels; [run] follows it as far as it is
    enabled. *)
Fixpoint run (ls : list Label) (st : State) : option State :=
  match ls with
  | [] => Some st
  | l :: ls' =>
      match exec l st with
      | Some st' => run ls' st'
      | None => None
      end
  end.

(** [connection.SendBytes(data)] and its siblings are
    [connection.BuildMessage().SendBytes(data)]: a new builder, whose
    message is allocated at [mb], then the builder's send. *)
Definition Connection_SendBytes (tid mb : nat) (d : Slice) : list Label :=
  [CallBuildMessage tid mb; CallSendBytes tid mb d].
Definition Connection_SendString (tid mb : nat) (s : string) : list Label :=
  [CallBuildMessage tid mb; CallSendString tid mb s].
Definition Connection_SendJson (tid mb : nat) (v : Value) : list Label :=
  [CallBuildMessage tid mb; CallSendJson tid mb v].

(** The caller that a label belongs to, if it is a caller's step. *)
Definition caller_of (l : Label) : option nat :=
  match l with
  | CallBuildMessage tid _ | CallWithId tid _ _ | CallWithEvent tid _ _
  | CallSendBytes tid _ _ | CallSendString tid _ _ | CallSendJson tid _ _
  | CallClose tid | SendTest tid | SendEval tid
  | MakeBuffer tid _ | WriteBuffer tid _ _ _ => Some tid
  | _ => None
  end.

(** The steps taken by the goroutine of [Upgrade]. *)
Definition by_loop (l : Label) : bool :=
  match l with
  | LoopMessage _ | LoopWrite | LoopShutdown _ | LoopDone => true
  | _ => false
  end.

(** A caller stuck in, or committed to, the send on the message channel. *)
Definition on_messages (p : Producer) : bool :=
  match p with
  | AtHandoff _ | Offering _ => true
  | _ => false
  end.

(** The messages the loop receives along a schedule, in order. *)
Fixpoint taken (ls : list Label) (st : State) : list Message :=
  match ls with
  | [] => []
  | l :: ls' =>
      match exec l st with
      | Some st' =>
          match l with
          | LoopMessage _ => held (loop st') ++ taken ls' st'
          | _ => taken ls' st'
          end
      | None => []
      end
  end.

(** The messages the loop writes along a schedule, in order, each with the
    memory it is written from. *)
Fixpoint wrote (ls : list Label) (st : State) : list (Heap * Message) :=
  match ls with
  | [] => []
  | l :: ls' =>
      match exec l st with
      | Some st' =>
          match l, loop st with
          | LoopWrite, Holding m => (heap st, m) :: wrote ls' st'
          | _, _ => wrote ls' st'
          end
      | None => []
      end
  end.

(** Whether a step stores a byte into the array at address [a]. *)
Definition writes_to (a : nat) (l : Label) : bool :=
  match l with
  | WriteBuffer _ a' _ _ => (a' =? a)%nat
  | _ => false
  end.

(** A step that stores no byte into any array. *)
Definition no_store (l : Label) : bool :=
  match l with
  | WriteBuffer _ _ _ _ => false
  | _ => true
  end.

(** The builder a caller's step works on. *)
Definition builder_of (l : Label) : option nat :=
  match l with
  | CallBuildMessage _ mb | CallWithId _ mb _ | CallWithEvent _ mb _
  | CallSendBytes _ mb _ | CallSendString _ mb _ | CallSendJson _ mb _ => Some mb
  | _ => None
  end.

(** ** Formatting and the response writer *)

Lemma wire_app (xs ys : list SinkEvent) : wire (xs ++ ys) = wire xs ++ wire ys.
Proof.
  induction xs as [|x xs IH]; [reflexivity|].
  destruct x; simpl; rewrite IH; [reflexivity| |reflexivity].
  by rewrite app_assoc.
Qed.

Lemma Sprintf_fmt_id (a : list byte) :
  Sprintf fmt_id [a] = bytes_of "id: " ++ a ++ [LF].
Proof. reflexivity. Qed.

Lemma Sprintf_fmt_event (a : list byte) :
  Sprintf fmt_event [a] = bytes_of "event: " ++ a ++ [LF].
Proof. reflexivity. Qed.

Lemma Sprintf_fmt_data (a : list byte) :
  Sprintf fmt_data [a] = bytes_of "data: " ++ a ++ [LF; LF].
Proof. reflexivity. Qed.

Lemma Fprintf_events (w : ResponseWriter) (f : list byte) (args : list (list byte)) :
  events (fst (Fprintf w f args)) = events w ++ [EvWrite (Sprintf f args)].
Proof. unfold Fprintf, Write. by destruct (faults w). Qed.

Lemma emit_sink (f a : list byte) (e : Env) :
  sink (emit f a e) = fst (Fprintf (sink e) f [a]).
Proof.
  unfold emit. destruct (Fprintf (sink e) f [a]) as [w [x|]]; simpl; [|done].
  by destruct (receivers e).
Qed.

Lemma not_empty_length (s : string) : (0 <? String.length s)%nat = true <-> s <> "".
Proof. destruct s; unfold Nat.ltb; simpl; split; intros; congruence. Qed.

Lemma empty_length (s : string) : (0 <? String.length s)%nat = false <-> s = "".
Proof. destruct s; unfold Nat.ltb; simpl; split; intros; congruence. Qed.

(** The loop of [sse.go] drives the response writer exactly as the older
    loop does. *)
Lemma on_message_sink (h : Heap) (m : Message) (e : Env) :
  sink (on_message h m e) = Part000.on_message h m (sink e).
Proof.
  unfold on_message, Part000.on_message. simpl.
  rewrite emit_sink. f_equal. f_equal.
  destruct (0 <? String.length (id m))%nat, (0 <? String.length (event m))%nat;
    rewrite ?emit_sink; reflexivity.
Qed.

Lemma Part000_on_message_events (h : Heap) (m : Message) (w : ResponseWriter) :
  events (Part000.on_message h m w) =
  events w
  ++ (if (0 <? String.length (id m))%nat
      then [EvWrite (bytes_of "id: " ++ bytes_of (id m) ++ [LF])] else [])
  ++ (if (0 <? String.length (event m))%nat
      then [EvWrite (bytes_of "event: " ++ bytes_of (event m) ++ [LF])] else [])
  ++ [EvWrite (bytes_of "data: " ++ bytes_at h (data m) ++ [LF; LF]); EvFlush].
Proof.
  unfold Part000.on_message. cbn [Flush events].
  rewrite Fprintf_events, Sprintf_fmt_data.
  destruct (0 <? String.length (id m))%nat, (0 <? String.length (event m))%nat;
    rewrite ?Fprintf_events, ?Sprintf_fmt_id, ?Sprintf_fmt_event, <- ?app_assoc;
    reflexivity.
Qed.

Lemma calls_eq (h : Heap) (m : Message) (e : Env) :
  calls h m e =
  (if (0 <? String.length (id m))%nat
   then [EvWrite (bytes_of "id: " ++ bytes_of (id m) ++ [LF])] else [])
  ++ (if (0 <? String.length (event m))%nat
      then [EvWrite (bytes_of "event: " ++ bytes_of (event m) ++ [LF])] else [])
  ++ [EvWrite (bytes_of "data: " ++ bytes_at h (data m) ++ [LF; LF]); EvFlush].
Proof.
  unfold calls. rewrite on_message_sink, Part000_on_message_events.
  apply drop_app_length.
Qed.

Lemma Part000_calls_eq (h : Heap) (m : Message) (w : ResponseWriter) :
  Part000.calls h m w =
  (if (0 <? String.length (id m))%nat
   then [EvWrite (bytes_of "id: " ++ bytes_of (id m) ++ [LF])] else [])
  ++ (if (0 <? String.length (event m))%nat
      then [EvWrite (bytes_of "event: " ++ bytes_of (event m) ++ [LF])] else [])
  ++ [EvWrite (bytes_of "data: " ++ bytes_at h (data m) ++ [LF; LF]); EvFlush].
Proof.
  unfold Part000.calls. rewrite Part000_on_message_events.
  apply drop_app_length.
Qed.

(** What the writer has received after a message is what it had received
    before, followed by the calls for that message. *)
Lemma on_message_events (h : Heap) (m : Message) (e : Env) :
  events (sink (on_message h m e)) = events (sink e) ++ calls h m e.
Proof.
  rewrite calls_eq, on_message_sink. apply Part000_on_message_events.
Qed.

Lemma written_eq (h : Heap) (m : Message) (e : Env) :
  written h m e =
  (if (0 <? String.length (id m))%nat
   then bytes_of "id: " ++ bytes_of (id m) ++ [LF] else [])
  ++ (if (0 <? String.length (event m))%nat
      then bytes_of "event: " ++ bytes_of (event m) ++ [LF] else [])
  ++ bytes_of "data: " ++ bytes_at h (data m) ++ [LF; LF].
Proof.
  unfold written. rewrite calls_eq, !wire_app.
  destruct (0 <? String.length (id m))%nat, (0 <? String.length (event m))%nat;
    cbn [wire app]; rewrite ?app_nil_r; reflexivity.
Qed.

Lemma on_message_wire (h : Heap) (m : Message) (e : Env) :
  wire (events (sink (on_message h m e))) = wire (events (sink e)) ++ written h m e.
Proof. unfold written. by rewrite on_message_events, wire_app. Qed.

(** ** The wire format of one message *)

(** C1.  A message whose id and event are both non-empty makes the loop
    issue three writes and a flush: the line [id: <id>], the line
    [event: <event>], and the line [data: <data>] together with the blank
    line that ends the event.  The bytes handed to the response writer are
    exactly these, in this order, appended to what was written before. *)
Theorem message_with_id_and_event (h : Heap) (m : Message) (e : Env) :
  id m <> "" -> event m <> "" ->
  calls h m e =
    [EvWrite (bytes_of "id: " ++ bytes_of (id m) ++ [LF]);
     EvWrite (bytes_of "event: " ++ bytes_of (event m) ++ [LF]);
     EvWrite (bytes_of "data: " ++ bytes_at h (data m) ++ [LF; LF]);
     EvFlush]
  /\ written h m e =
       (bytes_of "id: " ++ bytes_of (id m) ++ [LF])
       ++ (bytes_of "event: " ++ bytes_of (event m) ++ [LF])
       ++ (bytes_of "data: " ++ bytes_at h (data m) ++ [LF])
       ++ [LF]
  /\ wire (events (sink (on_message h m e))) = wire (events (sink e)) ++ written h m e.
Proof.
  intros Hid Hev.
  apply not_empty_length in Hid. apply not_empty_length in Hev.
  split; [|split].
  - rewrite calls_eq, Hid, Hev. reflexivity.
  - rewrite written_eq, Hid, Hev. rewrite <- !app_assoc. reflexivity.
  - apply on_message_wire.
Qed.

Lemma split_lines_app_LF (a r : list byte) :
  LF ∉ a -> split_lines (a ++ LF :: r) = a :: split_lines r.
Proof.
  induction a as [|b a IH]; intros Hno; [reflexivity|].
  apply not_elem_of_cons in Hno as [Hb Ha].
  cbn [app split_lines]. rewrite (IH Ha).
  destruct (Byte.eqb b LF) eqn:Hq; [|reflexivity].
  apply Byte.byte_dec_bl in Hq. congruence.
Qed.

Lemma no_LF_in_literal (lit a : list byte) :
  Forall (fun b => b <> LF) lit -> LF ∉ a -> LF ∉ lit ++ a.
Proof.
  intros Hlit Ha Hin. apply elem_of_app in Hin as [Hin|Hin]; [|done].
  rewrite Forall_forall in Hlit. by apply (Hlit LF).
Qed.

Lemma literal_id_no_LF : Forall (fun b => b <> LF) (bytes_of "id: ").
Proof. repeat constructor; discriminate. Qed.

Lemma literal_event_no_LF : Forall (fun b => b <> LF) (bytes_of "event: ").
Proof. repeat constructor; discriminate. Qed.

Lemma literal_data_no_LF : Forall (fun b => b <> LF) (bytes_of "data: ").
Proof. repeat constructor; discriminate. Qed.

(** The lines of what is written for a message whose fields hold no
    newline: one per field written, then the empty line and the empty rest. *)
Lemma lines_of_written (h : Heap) (m : Message) (e : Env) :
  LF ∉ bytes_of (id m) -> LF ∉ bytes_of (event m) -> LF ∉ bytes_at h (data m) ->
  split_lines (written h m e) =
  (if (0 <? String.length (id m))%nat
   then [bytes_of "id: " ++ bytes_of (id m)] else [])
  ++ (if (0 <? String.length (event m))%nat
      then [bytes_of "event: " ++ bytes_of (event m)] else [])
  ++ [bytes_of "data: " ++ bytes_at h (data m); []; []].
Proof.
  intros Hi He Hd. rewrite written_eq.
  assert (split_lines (bytes_of "data: " ++ bytes_at h (data m) ++ [LF; LF]) =
          [bytes_of "data: " ++ bytes_at h (data m); []; []]) as Hdata.
  { rewrite app_assoc.
    rewrite split_lines_app_LF by (apply no_LF_in_literal;
                                   [apply literal_data_no_LF|done]).
    reflexivity. }
  assert (forall r,
            split_lines ((bytes_of "event: " ++ bytes_of (event m) ++ [LF]) ++ r) =
            (bytes_of "event: " ++ bytes_of (event m)) :: split_lines r) as Hev.
  { intros r. rewrite <- !app_assoc. rewrite app_assoc.
    apply split_lines_app_LF, no_LF_in_literal; [apply literal_event_no_LF|done]. }
  assert (forall r,
            split_lines ((bytes_of "id: " ++ bytes_of (id m) ++ [LF]) ++ r) =
            (bytes_of "id: " ++ bytes_of (id m)) :: split_lines r) as Hid.
  { intros r. rewrite <- !app_assoc. rewrite app_assoc.
    apply split_lines_app_LF, no_LF_in_literal; [apply literal_id_no_LF|done]. }
  destruct (0 <? String.length (id m))%nat, (0 <? String.length (event m))%nat;
    rewrite ?Hid, ?Hev; cbn [app]; rewrite ?Hid, ?Hev, Hdata; reflexivity.
Qed.

(** C2.  With an empty id the loop makes no write for the id field: its
    calls are the event line (if the event is non-empty), the data line and
    the flush, the bytes written are those of these lines, and none of the
    writes is an [id: ] line; in particular the loop writes no bare [id: ]
    line for the empty field.  The bytes of the other fields are written as
    they are, so the output as a whole is free of lines that begin with
    [id: ] when the event and the data hold no newline.  The same holds for
    an empty event and [event: ] lines. *)
Theorem empty_fields_omitted (h : Heap) (m : Message) (e : Env) :
  (id m = "" ->
     calls h m e =
       (if (0 <? String.length (event m))%nat
        then [EvWrite (bytes_of "event: " ++ bytes_of (event m) ++ [LF])] else [])
       ++ [EvWrite (bytes_of "data: " ++ bytes_at h (data m) ++ [LF; LF]); EvFlush]
     /\ written h m e =
       (if (0 <? String.length (event m))%nat
        then bytes_of "event: " ++ bytes_of (event m) ++ [LF] else [])
       ++ bytes_of "data: " ++ bytes_at h (data m) ++ [LF; LF]
     /\ (forall p, EvWrite p ∈ calls h m e -> ~ bytes_of "id: " `prefix_of` p)
     /\ (EvWrite (bytes_of "id: " ++ [LF]) ∉ calls h m e)
     /\ (LF ∉ bytes_of (event m) -> LF ∉ bytes_at h (data m) ->
         forall l, l ∈ split_lines (written h m e) ->
                   ~ bytes_of "id: " `prefix_of` l))
  /\ (event m = "" ->
     calls h m e =
       (if (0 <? String.length (id m))%nat
        then [EvWrite (bytes_of "id: " ++ bytes_of (id m) ++ [LF])] else [])
       ++ [EvWrite (bytes_of "data: " ++ bytes_at h (data m) ++ [LF; LF]); EvFlush]
     /\ written h m e =
       (if (0 <? String.length (id m))%nat
        then bytes_of "id: " ++ bytes_of (id m) ++ [LF] else [])
       ++ bytes_of "data: " ++ bytes_at h (data m) ++ [LF; LF]
     /\ (forall p, EvWrite p ∈ calls h m e -> ~ bytes_of "event: " `prefix_of` p)
     /\ (EvWrite (bytes_of "event: " ++ [LF]) ∉ calls h m e)
     /\ (LF ∉ bytes_of (id m) -> LF ∉ bytes_at h (data m) ->
         forall l, l ∈ split_lines (written h m e) ->
                   ~ bytes_of "event: " `prefix_of` l)).
Proof.
  split; intros Hnil.
  - assert (Hc : calls h m e =
       (if (0 <? String.length (event m))%nat
        then [EvWrite (bytes_of "event: " ++ bytes_of (event m) ++ [LF])] else [])
       ++ [EvWrite (bytes_of "data: " ++ bytes_at h (data m) ++ [LF; LF]); EvFlush]).
    { rewrite calls_eq. apply empty_length in Hnil. by rewrite Hnil. }
    assert (Hp : forall p, EvWrite p ∈ calls h m e -> ~ bytes_of "id: " `prefix_of` p).
    { intros p Hin [k Hk]. rewrite Hc in Hin.
      destruct (0 <? String.length (event m))%nat; cbn [app] in Hin;
        repeat (apply elem_of_cons in Hin as [Hin|Hin];
                  [first [discriminate Hin | injection Hin as ->; discriminate Hk]|]);
        by apply elem_of_nil in Hin. }
    split; [exact Hc|]. split.
    { rewrite written_eq. apply empty_length in Hnil. by rewrite Hnil. }
    split; [exact Hp|]. split.
    { intros Hin. apply (Hp _ Hin). by exists [LF]. }
    intros Hev Hd l Hl [k Hk].
    rewrite lines_of_written in Hl; [|rewrite Hnil; apply not_elem_of_nil|done..].
    apply empty_length in Hnil. rewrite Hnil in Hl.
    destruct (0 <? String.length (event m))%nat; cbn [app] in Hl;
      repeat (apply elem_of_cons in Hl as [->|Hl]; [discriminate Hk|]);
      by apply elem_of_nil in Hl.
  - assert (Hc : calls h m e =
       (if (0 <? String.length (id m))%nat
        then [EvWrite (bytes_of "id: " ++ bytes_of (id m) ++ [LF])] else [])
       ++ [EvWrite (bytes_of "data: " ++ bytes_at h (data m) ++ [LF; LF]); EvFlush]).
    { rewrite calls_eq. apply empty_length in Hnil. by rewrite Hnil. }
    assert (Hp : forall p, EvWrite p ∈ calls h m e -> ~ bytes_of "event: " `prefix_of` p).
    { intros p Hin [k Hk]. rewrite Hc in Hin.
      destruct (0 <? String.length (id m))%nat; cbn [app] in Hin;
        repeat (apply elem_of_cons in Hin as [Hin|Hin];
                  [first [discriminate Hin | injection Hin as ->; discriminate Hk]|]);
        by apply elem_of_nil in Hin. }
    split; [exact Hc|]. split.
    { rewrite written_eq. apply empty_length in Hnil. by rewrite Hnil. }
    split; [exact Hp|]. split.
    { intros Hin. apply (Hp _ Hin). by exists [LF]. }
    intros Hid Hd l Hl [k Hk].
    rewrite lines_of_written in Hl; [|done|rewrite Hnil; apply not_elem_of_nil|done].
    apply empty_length in Hnil. rewrite Hnil in Hl.
    destruct (0 <? String.length (id m))%nat; cbn [app] in Hl;
      repeat (apply elem_of_cons in Hl as [->|Hl]; [discriminate Hk|]);
      by apply elem_of_nil in Hl.
Qed.


(** C10.  For every message the loop of [sse.go] and the loop of the older
    copy make the same calls on the response writer and hand it the same
    bytes, whatever the two writers received before; started on the same
    writer they leave it in the same state. *)
Theorem serialization_agrees (h : Heap) (m : Message) (e : Env) (w : ResponseWriter) :
  sink (on_message h m e) = Part000.on_message h m (sink e)
  /\ calls h m e = Part000.calls h m w
  /\ written h m e = Part000.written h m w.
Proof.
  split; [apply on_message_sink|].
  assert (calls h m e = Part000.calls h m w) as Hc
    by (by rewrite calls_eq, Part000_calls_eq).
  split; [exact Hc|]. unfold written, Part000.written. by rewrite Hc.
Qed.

(** Where the two copies differ: only [sse.go] flushes after setting the
    headers, and only it reports write errors. *)
Lemma Upgrade_events_vs_Part000 (w : ResponseWriter) (n : nat) :
  events (up_writer (Upgrade w n)) =
  events (Part000.up_writer (Part000.Upgrade w n))
  ++ (if flusher w then [EvFlush] else []).
Proof.
  unfold Upgrade, Part000.Upgrade. destruct (flusher w); simpl.
  - reflexivity.
  - by rewrite app_nil_r.
Qed.

(** ** Steps of the system *)

Ltac exec_inv H :=
  unfold exec, update_message in H;
  cbn [producers store heap env conn loop ctx_done with_heap] in H;
  repeat (case_match; try discriminate);
  simplify_eq.

Lemma with_producer_twice (tid : nat) (p q : Producer) (st : State) :
  with_producer tid q (with_producer tid p st) = with_producer tid q st.
Proof. unfold with_producer. simpl. by rewrite insert_insert_eq. Qed.

Lemma run_app (ls ks : list Label) (st : State) :
  run (ls ++ ks) st = match run ls st with Some st' => run ks st' | None => None end.
Proof.
  revert st. induction ls as [|l ls IH]; intros st; simpl; [done|].
  destruct (exec l st); [apply IH|done].
Qed.

(** Nothing ever sets [isOpen] back to [true]. *)
Lemma exec_closed (l : Label) (st st' : State) :
  exec l st = Some st' -> isOpen (conn st) = false -> isOpen (conn st') = false.
Proof. intros H Hc. destruct l; exec_inv H; simpl; done. Qed.

(** On a closed connection no caller newly reaches the send on the message
    channel. *)
Lemma exec_closed_on_messages (l : Label) (st st' : State) (t : nat) (p : Producer) :
  exec l st = Some st' -> isOpen (conn st) = false ->
  producers st' !! t = Some p -> on_messages p = true ->
  exists p0, producers st !! t = Some p0 /\ on_messages p0 = true.
Proof.
  intros H Hc Hp Hon.
  destruct l; exec_inv H; simpl in *;
    try (by eauto);
    try (destruct (decide (t = tid)) as [->|Hne];
         [rewrite lookup_insert_eq in Hp | rewrite lookup_insert_ne in Hp by done];
         simplify_eq; simpl in *; by eauto).
Qed.

Lemma run_closed (ls : list Label) (st st' : State) :
  run ls st = Some st' -> isOpen (conn st) = false ->
  isOpen (conn st') = false
  /\ forall t p, producers st' !! t = Some p -> on_messages p = true ->
       exists p0, producers st !! t = Some p0 /\ on_messages p0 = true.
Proof.
  revert st. induction ls as [|l ls IH]; intros st Hrun Hc; simpl in Hrun.
  - simplify_eq. eauto.
  - destruct (exec l st) as [st1|] eqn:He; [|done].
    destruct (IH st1 Hrun (exec_closed _ _ _ He Hc)) as [Hc' Hon].
    split; [done|]. intros t p Hp Hm.
    destruct (Hon t p Hp Hm) as (p1 & Hp1 & Hm1).
    by eapply exec_closed_on_messages.
Qed.

Lemma SendTest_closed (st : State) (tid mb : nat) :
  producers st !! tid = Some (AtSend mb) -> isOpen (conn st) = false ->
  exec (SendTest tid) st =
  Some (with_producer tid (Idle (Some (Some closed_error))) st).
Proof. intros Hp Hc. simpl. by rewrite Hp, Hc. Qed.

(** However many callers stand at the entry of [send] on a closed
    connection, letting each take its step returns the error to all of
    them and touches nothing else. *)
Lemma closed_callers_all_fail (tids : list nat) (st : State) :
  NoDup tids -> isOpen (conn st) = false ->
  (forall t, t ∈ tids -> exists mb, producers st !! t = Some (AtSend mb)) ->
  exists st',
    run (SendTest <$> tids) st = Some st'
    /\ (forall t, t ∈ tids ->
          producers st' !! t = Some (Idle (Some (Some closed_error))))
    /\ (forall t, t ∉ tids -> producers st' !! t = producers st !! t)
    /\ env st' = env st /\ conn st' = conn st /\ loop st' = loop st
    /\ store st' = store st /\ heap st' = heap st.
Proof.
  revert st. induction tids as [|t tids IH]; intros st Hnd Hc Hall.
  - exists st. simpl. split; [done|]. split; [intros t Ht; by apply elem_of_nil in Ht|]. done.
  - apply NoDup_cons in Hnd as [Hnotin Hnd].
    destruct (Hall t) as [mb Hp]; [by left|].
    set (st1 := with_producer t (Idle (Some (Some closed_error))) st).
    destruct (IH st1 Hnd) as (st' & Hrun & Hin & Hout & He & Hcn & Hl & Hs).
    { done. }
    { intros u Hu. destruct (Hall u) as [mbu Hpu]; [by right|].
      exists mbu. unfold st1. simpl.
      rewrite lookup_insert_ne; [done|]. intros ->. done. }
    exists st'. split.
    { cbn [fmap list_fmap run]. change (list_fmap _ _ SendTest tids) with (SendTest <$> tids).
      rewrite (SendTest_closed st t mb Hp Hc). exact Hrun. }
    split.
    { intros u Hu. apply elem_of_cons in Hu as [->|Hu]; [|by apply Hin].
      rewrite (Hout t Hnotin). unfold st1. simpl. by rewrite lookup_insert_eq. }
    split.
    { intros u Hu. apply not_elem_of_cons in Hu as [Hne Hu].
      rewrite (Hout u Hu). unfold st1. simpl. by rewrite lookup_insert_ne. }
    done.
Qed.

(** Once the loop has returned, it stays so and nothing more is written. *)
Lemma exec_stopped (l : Label) (st st' : State) :
  exec l st = Some st' -> loop st = Stopped ->
  loop st' = Stopped /\ sink (env st') = sink (env st).
Proof. intros H Hl. destruct l; exec_inv H; simpl in *; by try congruence. Qed.

Lemma run_stopped (ls : list Label) (st st' : State) :
  run ls st = Some st' -> loop st = Stopped ->
  loop st' = Stopped /\ sink (env st') = sink (env st).
Proof.
  revert st. induction ls as [|l ls IH]; intros st Hrun Hl; simpl in Hrun.
  - by simplify_eq.
  - destruct (exec l st) as [st1|] eqn:He; [|done].
    destruct (exec_stopped _ _ _ He Hl) as [Hl1 Hs1].
    destruct (IH st1 Hrun Hl1) as [Hl' Hs']. split; [done|congruence].
Qed.

(** And a caller that waits for it goes on waiting. *)
Lemma exec_stopped_waits (l : Label) (st st' : State) (tid : nat) (p : Producer) :
  exec l st = Some st' -> loop st = Stopped ->
  producers st !! tid = Some p -> waits_for_loop p = true ->
  exists p', producers st' !! tid = Some p' /\ waits_for_loop p' = true
             /\ (forall m, p = Offering m -> p' = Offering m)
             /\ (p = Closing -> p' = Closing).
Proof.
  intros H Hl Hp Hw.
  assert (producers st' !! tid = Some p
          \/ exists mb m, p = AtHandoff mb /\ producers st' !! tid = Some (Offering m))
    as [Hsame|(mb & m & -> & Hnext)].
  { destruct l; exec_inv H;
      cbn [producers with_loop with_env with_producer with_store with_conn with_done with_heap];
      try congruence; try (by left);
      match goal with
      | |- context [<[?t := _]> _ !! tid] =>
          destruct (decide (t = tid)) as [->|Hd];
          [rewrite lookup_insert_eq | rewrite lookup_insert_ne by done; by left]
      end;
      simplify_eq; try discriminate Hw.
    right. by do 2 eexists. }
  - exists p. by repeat split.
  - exists (Offering m). repeat split; [done|intros ? [=]|intros [=]].
Qed.

Lemma run_stopped_waits (ls : list Label) (st st' : State) (tid : nat) (p : Producer) :
  run ls st = Some st' -> loop st = Stopped ->
  producers st !! tid = Some p -> waits_for_loop p = true ->
  exists p', producers st' !! tid = Some p' /\ waits_for_loop p' = true
             /\ (forall m, p = Offering m -> p' = Offering m)
             /\ (p = Closing -> p' = Closing).
Proof.
  revert st p. induction ls as [|l ls IH]; intros st p Hrun Hl Hp Hw; simpl in Hrun.
  - simplify_eq. eauto 10.
  - destruct (exec l st) as [st1|] eqn:He; [|done].
    destruct (exec_stopped_waits _ _ _ _ _ He Hl Hp Hw) as (p1 & Hp1 & Hw1 & Ho1 & Hc1).
    destruct (exec_stopped _ _ _ He Hl) as [Hl1 _].
    destruct (IH st1 p1 Hrun Hl1 Hp1 Hw1) as (p' & Hp' & Hw' & Ho' & Hc').
    exists p'. split; [done|]. split; [done|]. split.
    + intros m ->. apply Ho'. by apply Ho1.
    + intros ->. apply Hc'. by apply Hc1.
Qed.

(** ** Sending *)

Lemma exec_SendBytes (st : State) (tid mb : nat) (d : Slice) :
  exec (CallSendBytes tid mb d) st =
  if caller_slice (heap st) d
  then update_message tid mb (set_data d) (fun _ => AtSend mb) st
  else None.
Proof. reflexivity. Qed.

Lemma exec_SendString (st : State) (tid mb : nat) (s : string) :
  exec (CallSendString tid mb s) st =
  update_message tid mb (set_data (fresh_slice (bytes_of s) (heap st)))
    (fun _ => AtSend mb) (with_heap (alloc false (bytes_of s) (heap st)) st).
Proof. reflexivity. Qed.

Lemma exec_SendJson (st : State) (tid mb : nat) (v : Value) (d : list byte) :
  json_Marshal v = inl d ->
  exec (CallSendJson tid mb v) st =
  update_message tid mb (set_data (fresh_slice d (heap st)))
    (fun _ => AtSend mb) (with_heap (alloc false d (heap st)) st).
Proof. intros Hm. simpl. by rewrite Hm. Qed.

(** A caller that has assigned the data field and enters [send] on a closed
    connection gets the error back. *)
Lemma enter_send_closed (st : State) (tid mb : nat) (r : option (option error))
    (m : Message) (d : Slice) :
  isOpen (conn st) = false ->
  producers st !! tid = Some (Idle r) -> store st !! mb = Some m ->
  match update_message tid mb (set_data d) (fun _ => AtSend mb) st with
  | Some st1 => exec (SendTest tid) st1
  | None => None
  end =
  Some (with_producer tid (Idle (Some (Some closed_error)))
          (with_store (<[mb := set_data d m]> (store st)) st)).
Proof.
  intros Hc Hp Hs. unfold update_message. rewrite Hp, Hs. simpl.
  rewrite lookup_insert_eq, Hc. by rewrite with_producer_twice.
Qed.

(** The builder's sends on a closed connection: the data field is assigned,
    then [send] returns the error. *)
Lemma builder_send_closed (st : State) (tid mb : nat) (r : option (option error))
    (m : Message) (d : Slice) :
  isOpen (conn st) = false -> caller_slice (heap st) d = true ->
  producers st !! tid = Some (Idle r) -> store st !! mb = Some m ->
  run [CallSendBytes tid mb d; SendTest tid] st =
  Some (with_producer tid (Idle (Some (Some closed_error)))
          (with_store (<[mb := set_data d m]> (store st)) st)).
Proof.
  intros Hc Hd Hp Hs. cbn [run]. rewrite exec_SendBytes, Hd.
  pose proof (enter_send_closed st tid mb r m d Hc Hp Hs) as H.
  destruct (update_message tid mb (set_data d) (fun _ => AtSend mb) st); [|done].
  by rewrite H.
Qed.

Lemma builder_send_fresh_closed (st : State) (tid mb : nat)
    (r : option (option error)) (m : Message) (d : list byte) :
  isOpen (conn st) = false ->
  producers st !! tid = Some (Idle r) -> store st !! mb = Some m ->
  match update_message tid mb (set_data (fresh_slice d (heap st)))
          (fun _ => AtSend mb) (with_heap (alloc false d (heap st)) st) with
  | Some st1 => exec (SendTest tid) st1
  | None => None
  end =
  Some (with_producer tid (Idle (Some (Some closed_error)))
          (with_store (<[mb := set_data (fresh_slice d (heap st)) m]> (store st))
             (with_heap (alloc false d (heap st)) st))).
Proof.
  intros Hc Hp Hs.
  apply (enter_send_closed (with_heap (alloc false d (heap st)) st) tid mb r m);
    done.
Qed.

Lemma build_message (st : State) (tid mb : nat) (r : option (option error)) :
  producers st !! tid = Some (Idle r) -> store st !! mb = None ->
  exec (CallBuildMessage tid mb) st =
  Some (with_store (<[mb := zero_Message]> (store st)) st).
Proof. intros Hp Hs. simpl. by rewrite Hp, Hs. Qed.

(** A caller blocked on the message channel leaves it only when the loop
    receives its copy, and then with a nil result. *)
Lemma exec_offer_taken (l : Label) (st st' : State) (tid : nat) (m : Message)
    (p : Producer) :
  exec l st = Some st' -> producers st !! tid = Some (Offering m) ->
  producers st' !! tid = Some p -> p <> Offering m ->
  l = LoopMessage tid /\ p = Idle (Some None) /\ loop st' = Holding m.
Proof.
  intros H Hp Hp' Hne.
  destruct l; exec_inv H; simpl in *; try congruence;
    match goal with
    | H : <[?t := _]> _ !! _ = _ |- _ =>
        destruct (decide (t = tid)) as [->|Hd];
        [rewrite lookup_insert_eq in H | rewrite lookup_insert_ne in H by done];
        by simplify_eq
    end.
Qed.

(** C3.  On a connection whose [isOpen] is false, a caller inside [send]
    is always able to take its step, and that step returns the
    connection-closed error and changes nothing but the caller itself: no
    message is offered on the channel.  This holds for any set of callers
    at once, the connection stays closed along every schedule, and no
    caller ever comes to wait on the message channel that was not already
    there.  The exported sends that reach [send], on a builder or on the
    connection, return that error; [SendJson] of a value that
    [json.Marshal] refuses does not reach [send] and returns the error of
    [json.Marshal].  On an open connection the caller passes the test and
    offers a copy of its message on the channel; when the loop receives it
    the call returns nil, that is the only way the call returns, and if the
    loop has returned while the caller still offers, the call never
    returns. *)
Theorem send_respects_isOpen (st : State) :
  (isOpen (conn st) = false ->
     (forall tid mb, producers st !! tid = Some (AtSend mb) ->
        exec (SendTest tid) st =
        Some (with_producer tid (Idle (Some (Some closed_error))) st))
     /\ (forall tids, NoDup tids ->
          (forall t, t ∈ tids -> exists mb, producers st !! t = Some (AtSend mb)) ->
          exists st',
            run (SendTest <$> tids) st = Some st'
            /\ (forall t, t ∈ tids ->
                  producers st' !! t = Some (Idle (Some (Some closed_error))))
            /\ (forall t, t ∉ tids -> producers st' !! t = producers st !! t)
            /\ env st' = env st /\ conn st' = conn st /\ loop st' = loop st
            /\ store st' = store st /\ heap st' = heap st)
     /\ (forall ls st', run ls st = Some st' ->
          isOpen (conn st') = false
          /\ forall t p, producers st' !! t = Some p -> on_messages p = true ->
               exists p0, producers st !! t = Some p0 /\ on_messages p0 = true)
     /\ (forall tid mb r m, producers st !! tid = Some (Idle r) ->
          store st !! mb = Some m ->
          (forall d, caller_slice (heap st) d = true ->
             run [CallSendBytes tid mb d; SendTest tid] st =
             Some (with_producer tid (Idle (Some (Some closed_error)))
                     (with_store (<[mb := set_data d m]> (store st)) st)))
          /\ (forall s,
             run [CallSendString tid mb s; SendTest tid] st =
             Some (with_producer tid (Idle (Some (Some closed_error)))
                     (with_store
                        (<[mb := set_data (fresh_slice (bytes_of s) (heap st)) m]>
                           (store st))
                        (with_heap (alloc false (bytes_of s) (heap st)) st))))
          /\ (forall v d, json_Marshal v = inl d ->
             run [CallSendJson tid mb v; SendTest tid] st =
             Some (with_producer tid (Idle (Some (Some closed_error)))
                     (with_store
                        (<[mb := set_data (fresh_slice d (heap st)) m]> (store st))
                        (with_heap (alloc false d (heap st)) st))))
          /\ (forall v err, json_Marshal v = inr err ->
             exec (CallSendJson tid mb v) st =
             Some (with_producer tid (Idle (Some (Some err))) st)))
     /\ (forall tid mb r, producers st !! tid = Some (Idle r) ->
          store st !! mb = None ->
          (forall d, caller_slice (heap st) d = true ->
             run (Connection_SendBytes tid mb d ++ [SendTest tid]) st =
             Some (with_producer tid (Idle (Some (Some closed_error)))
                     (with_store (<[mb := set_data d zero_Message]> (store st)) st)))
          /\ (forall s,
             run (Connection_SendString tid mb s ++ [SendTest tid]) st =
             Some (with_producer tid (Idle (Some (Some closed_error)))
                     (with_store
                        (<[mb := set_data (fresh_slice (bytes_of s) (heap st))
                                   zero_Message]> (store st))
                        (with_heap (alloc false (bytes_of s) (heap st)) st))))
          /\ (forall v d, json_Marshal v = inl d ->
             run (Connection_SendJson tid mb v ++ [SendTest tid]) st =
             Some (with_producer tid (Idle (Some (Some closed_error)))
                     (with_store
                        (<[mb := set_data (fresh_slice d (heap st)) zero_Message]>
                           (store st))
                        (with_heap (alloc false d (heap st)) st))))
          /\ (forall v err, json_Marshal v = inr err ->
             run (Connection_SendJson tid mb v) st =
             Some (with_producer tid (Idle (Some (Some err)))
                     (with_store (<[mb := zero_Message]> (store st)) st)))))
  /\ (isOpen (conn st) = true ->
     forall tid mb m, producers st !! tid = Some (AtSend mb) ->
       store st !! mb = Some m ->
       exec (SendTest tid) st = Some (with_producer tid (AtHandoff mb) st)
       /\ run [SendTest tid; SendEval tid] st =
          Some (with_producer tid (Offering m) st)
       /\ (loop st = Waiting ->
           run [SendTest tid; SendEval tid; LoopMessage tid] st =
           Some (with_producer tid (Idle (Some None)) (with_loop (Holding m) st)))
       /\ (forall l st1 st2 p,
             run [SendTest tid; SendEval tid] st = Some st1 ->
             exec l st1 = Some st2 ->
             producers st2 !! tid = Some p -> p <> Offering m ->
             l = LoopMessage tid /\ p = Idle (Some None) /\ loop st2 = Holding m)
       /\ (forall ls st1 ls' st2,
             run ([SendTest tid; SendEval tid] ++ ls) st = Some st1 ->
             producers st1 !! tid = Some (Offering m) -> loop st1 = Stopped ->
             run ls' st1 = Some st2 ->
             producers st2 !! tid = Some (Offering m))).
Proof.
  split.
  - intros Hc. split; [|split; [|split; [|split]]].
    + intros tid mb Hp. by apply (SendTest_closed st tid mb).
    + intros tids Hnd Hall. by apply closed_callers_all_fail.
    + intros ls st' Hrun. by apply (run_closed ls).
    + intros tid mb r m Hp Hs. split; [|split; [|split]].
      * intros d Hd. by apply (builder_send_closed st tid mb r).
      * intros s. cbn [run]. rewrite exec_SendString.
        pose proof (builder_send_fresh_closed st tid mb r m (bytes_of s) Hc Hp Hs)
          as H.
        destruct (update_message tid mb _ _ _); [by rewrite H|done].
      * intros v d Hm. cbn [run]. rewrite (exec_SendJson _ _ _ _ _ Hm).
        pose proof (builder_send_fresh_closed st tid mb r m d Hc Hp Hs) as H.
        destruct (update_message tid mb _ _ _); [by rewrite H|done].
      * intros v err Hm. simpl. by rewrite Hm, Hp, Hs.
    + intros tid mb r Hp Hs.
      pose proof (build_message st tid mb r Hp Hs) as Hb.
      set (st0 := with_store (<[mb := zero_Message]> (store st)) st) in *.
      assert (isOpen (conn st0) = false) as Hc0 by done.
      assert (producers st0 !! tid = Some (Idle r)) as Hp0 by done.
      assert (store st0 !! mb = Some zero_Message) as Hs0.
      { unfold st0. simpl. by rewrite lookup_insert_eq. }
      split; [|split; [|split]].
      * intros d Hd. unfold Connection_SendBytes. cbn [app].
        change (run (CallBuildMessage tid mb :: ?ks) st)
          with (match exec (CallBuildMessage tid mb) st with
                | Some st' => run ks st' | None => None end).
        rewrite Hb, (builder_send_closed st0 tid mb r zero_Message d); try done.
        unfold st0, with_store, with_producer. simpl. by rewrite insert_insert_eq.
      * intros s. unfold Connection_SendString. cbn [app run]. rewrite Hb.
        rewrite exec_SendString.
        pose proof (builder_send_fresh_closed st0 tid mb r zero_Message (bytes_of s)
                      Hc0 Hp0 Hs0) as H.
        destruct (update_message tid mb _ _ _); [|done]. rewrite H.
        unfold st0, with_store, with_producer, with_heap. simpl.
        by rewrite insert_insert_eq.
      * intros v d Hm. unfold Connection_SendJson. cbn [app run]. rewrite Hb.
        rewrite (exec_SendJson _ _ _ _ _ Hm).
        pose proof (builder_send_fresh_closed st0 tid mb r zero_Message d
                      Hc0 Hp0 Hs0) as H.
        destruct (update_message tid mb _ _ _); [|done]. rewrite H.
        unfold st0, with_store, with_producer, with_heap. simpl.
        by rewrite insert_insert_eq.
      * intros v err Hm. unfold Connection_SendJson. cbn [run]. rewrite Hb.
        cbn [exec]. rewrite Hm, Hp0, Hs0. reflexivity.
  - intros Ho tid mb m Hp Hs.
    assert (exec (SendTest tid) st = Some (with_producer tid (AtHandoff mb) st)) as Ht.
    { simpl. by rewrite Hp, Ho. }
    assert (run [SendTest tid; SendEval tid] st =
            Some (with_producer tid (Offering m) st)) as He.
    { cbn [run]. rewrite Ht. simpl. rewrite lookup_insert_eq, Hs.
      by rewrite with_producer_twice. }
    split; [exact Ht|]. split; [exact He|]. split; [|split].
    + intros Hl.
      change [SendTest tid; SendEval tid; LoopMessage tid]
        with ([SendTest tid; SendEval tid] ++ [LoopMessage tid]).
      rewrite run_app, He. simpl. rewrite Hl, lookup_insert_eq.
      unfold with_producer, with_loop. simpl. by rewrite insert_insert_eq.
    + intros l st1 st2 p Hrun Hex Hp2 Hne. rewrite He in Hrun. simplify_eq.
      apply (exec_offer_taken l _ st2 tid m p Hex); [|done..].
      simpl. by rewrite lookup_insert_eq.
    + intros ls st1 ls' st2 _ Hp1 Hl1 Hrun.
      destruct (run_stopped_waits ls' st1 st2 tid (Offering m) Hrun Hl1 Hp1 eq_refl)
        as (p' & Hp' & _ & Hsame & _).
      by rewrite (Hsame m eq_refl) in Hp'.
Qed.

(** C4.  When [json.Marshal] fails on the value, [SendJson] returns that
    error at once: the builder's message keeps its data, the caller does
    not enter [send], nothing is offered to or taken by the loop, and the
    response writer, the connection and the loop are as before. *)
Theorem SendJson_unserializable (st : State) (tid mb : nat) (v : Value)
    (err : error) (r : option (option error)) (m : Message) :
  json_Marshal v = inr err ->
  producers st !! tid = Some (Idle r) ->
  store st !! mb = Some m ->
  exists st',
    exec (CallSendJson tid mb v) st = Some st'
    /\ producers st' !! tid = Some (Idle (Some (Some err)))
    /\ store st' = store st
    /\ store st' !! mb = Some m
    /\ env st' = env st
    /\ conn st' = conn st
    /\ loop st' = loop st
    /\ (forall t, t <> tid -> producers st' !! t = producers st !! t)
    /\ exec (SendTest tid) st' = None
    /\ exec (SendEval tid) st' = None
    /\ exec (LoopMessage tid) st' = None
    /\ heap st' = heap st.
Proof.
  intros Hm Hp Hs.
  exists (with_producer tid (Idle (Some (Some err))) st).
  split; [simpl; by rewrite Hm, Hp, Hs|].
  simpl. rewrite lookup_insert_eq.
  repeat split; try done.
  - intros t Hne. by rewrite lookup_insert_ne.
  - by destruct (loop st).
Qed.

(** ** Upgrade *)

(** C5.  On a response writer that is not a flusher, [Upgrade] returns the
    streaming-not-supported error and no connection; the writer's headers
    and call trace are untouched, no channel has been made, no goroutine
    has been started, and no running system comes out of the call. *)
Theorem Upgrade_without_flusher (w : ResponseWriter) (n : nat)
    (callers : gmap nat Producer) :
  flusher w = false ->
  up_err (Upgrade w n) = Some (errors_New "streaming not supported")
  /\ up_conn (Upgrade w n) = None
  /\ up_writer (Upgrade w n) = w
  /\ header (up_writer (Upgrade w n)) = header w
  /\ events (up_writer (Upgrade w n)) = events w
  /\ up_nchan (Upgrade w n) = n
  /\ up_go (Upgrade w n) = None
  /\ start (Upgrade w n) callers = None.
Proof. intros Hf. unfold start, Upgrade. rewrite Hf. simpl. done. Qed.

(** C6.  On a flusher, [Upgrade] returns a connection and no error, in
    [sse.go] and in the older copy alike, and sets the three headers
    [Content-Type: text/event-stream], [Cache-Control: no-cache] and
    [Connection: keep-alive], in this order; the header map holds these
    three values and is unchanged at every other key.  In [sse.go] one
    flush follows, and these four are all the calls [Upgrade] makes on the
    response writer.  In the older copy the three header settings are all
    the calls: [Upgrade] returns with the headers set and not flushed. *)
Theorem Upgrade_sets_headers_and_flushes (w : ResponseWriter) (n : nat) :
  flusher w = true ->
  up_err (Upgrade w n) = None
  /\ up_conn (Upgrade w n) =
       Some {| errors := n; messages := S n; shutdown := S (S n); isOpen := true |}
  /\ up_go (Upgrade w n) = Some Waiting
  /\ events (up_writer (Upgrade w n)) =
       events w ++ [EvSetHeader "Content-Type" "text/event-stream";
                    EvSetHeader "Cache-Control" "no-cache";
                    EvSetHeader "Connection" "keep-alive";
                    EvFlush]
  /\ header (up_writer (Upgrade w n)) !! "Content-Type" = Some ["text/event-stream"]
  /\ header (up_writer (Upgrade w n)) !! "Cache-Control" = Some ["no-cache"]
  /\ header (up_writer (Upgrade w n)) !! "Connection" = Some ["keep-alive"]
  /\ (forall k, k <> "Content-Type" -> k <> "Cache-Control" -> k <> "Connection" ->
       header (up_writer (Upgrade w n)) !! k = header w !! k)
  /\ Part000.up_err (Part000.Upgrade w n) = None
  /\ Part000.up_conn (Part000.Upgrade w n) =
       Some {| Part000.messages := n; Part000.shutdown := S n;
               Part000.isOpen := true |}
  /\ Part000.up_go (Part000.Upgrade w n) = Some Waiting
  /\ events (Part000.up_writer (Part000.Upgrade w n)) =
       events w ++ [EvSetHeader "Content-Type" "text/event-stream";
                    EvSetHeader "Cache-Control" "no-cache";
                    EvSetHeader "Connection" "keep-alive"]
  /\ header (Part000.up_writer (Part000.Upgrade w n)) =
       header (up_writer (Upgrade w n))
  /\ events (up_writer (Upgrade w n)) =
       events (Part000.up_writer (Part000.Upgrade w n)) ++ [EvFlush].
Proof.
  intros Hf. unfold Upgrade, Part000.Upgrade. rewrite Hf. simpl.
  repeat split.
  - by rewrite <- !app_assoc.
  - rewrite !lookup_insert_ne by discriminate. by rewrite lookup_insert_eq.
  - rewrite lookup_insert_ne by discriminate. by rewrite lookup_insert_eq.
  - by rewrite lookup_insert_eq.
  - intros k H1 H2 H3. by rewrite !lookup_insert_ne by congruence.
  - by rewrite <- !app_assoc.
Qed.

(** The older copy sets the same three headers but does not flush. *)
Lemma Part000_Upgrade_sets_headers (w : ResponseWriter) (n : nat) :
  flusher w = true ->
  events (Part000.up_writer (Part000.Upgrade w n)) =
    events w ++ [EvSetHeader "Content-Type" "text/event-stream";
                 EvSetHeader "Cache-Control" "no-cache";
                 EvSetHeader "Connection" "keep-alive"]
  /\ header (Part000.up_writer (Part000.Upgrade w n)) =
     header (up_writer (Upgrade w n)).
Proof.
  intros Hf. unfold Part000.Upgrade, Upgrade. rewrite Hf. simpl.
  split; [by rewrite <- !app_assoc|done].
Qed.

(** ** The life of the loop *)

Lemma exec_stops_on_done (l : Label) (st st' : State) :
  exec l st = Some st' -> loop st <> Stopped -> loop st' = Stopped ->
  l = LoopDone /\ ctx_done st = true.
Proof. intros H Hl Hl'. destruct l; exec_inv H; simpl in *; by try congruence. Qed.

(** C7.  The loop's receive on the shutdown channel, enabled whenever the
    loop waits and a caller is inside [Close], leaves the loop waiting and
    the connection, [isOpen] included, as it was; neither does entering
    [Close] change them.  A step that takes a loop which has not stopped
    to one that has is the branch on the request context being done, and
    is taken with the context done; that branch sets [isOpen] to false and
    stops the loop.  Once the loop has stopped it stays stopped and the
    response writer receives no further call, along every schedule. *)
Theorem loop_ends_only_on_done (st : State) :
  (forall tid st', exec (LoopShutdown tid) st = Some st' ->
     loop st = Waiting /\ loop st' = Waiting /\ conn st' = conn st
     /\ env st' = env st /\ store st' = store st)
  /\ (forall tid, loop st = Waiting -> producers st !! tid = Some Closing ->
       exec (LoopShutdown tid) st = Some (with_producer tid (Idle None) st))
  /\ (forall tid st', exec (CallClose tid) st = Some st' ->
       loop st' = loop st /\ conn st' = conn st)
  /\ (forall l st', exec l st = Some st' -> loop st <> Stopped ->
       loop st' = Stopped -> l = LoopDone /\ ctx_done st = true)
  /\ (loop st = Waiting -> ctx_done st = true ->
       exec LoopDone st =
       Some (with_loop Stopped (with_conn (close_conn (conn st)) st)))
  /\ (forall st', exec LoopDone st = Some st' ->
       loop st' = Stopped /\ isOpen (conn st') = false /\ env st' = env st)
  /\ (loop st = Stopped -> forall ls st', run ls st = Some st' ->
       loop st' = Stopped
       /\ events (sink (env st')) = events (sink (env st))
       /\ wire (events (sink (env st'))) = wire (events (sink (env st)))).
Proof.
  split; [|split; [|split; [|split; [|split; [|split]]]]].
  - intros tid st' H. by exec_inv H.
  - intros tid Hl Hp. simpl. by rewrite Hl, Hp.
  - intros tid st' H. by exec_inv H.
  - intros l st' H Hl Hl'. by eapply exec_stops_on_done.
  - intros Hl Hd. simpl. by rewrite Hl, Hd.
  - intros st' H. by exec_inv H.
  - intros Hl ls st' Hrun.
    destruct (run_stopped _ _ _ Hrun Hl) as [Hl' Hs]. by rewrite Hs.
Qed.

(** ** The message in flight *)

(** A blocked caller keeps the copy it offers until the loop takes it. *)
Lemma exec_keeps_offer (l : Label) (st st' : State) (tid : nat) (m : Message) :
  exec l st = Some st' -> producers st !! tid = Some (Offering m) ->
  l <> LoopMessage tid -> producers st' !! tid = Some (Offering m).
Proof.
  intros H Hp Hne.
  destruct l; exec_inv H; simpl in *; try done;
    match goal with
    | |- <[?t := _]> _ !! _ = _ =>
        destruct (decide (t = tid)) as [->|Hd];
        [congruence | by rewrite lookup_insert_ne]
    end.
Qed.

Lemma run_keeps_offer (ls : list Label) (st st' : State) (tid : nat) (m : Message) :
  run ls st = Some st' -> producers st !! tid = Some (Offering m) ->
  Forall (fun l => l <> LoopMessage tid) ls ->
  producers st' !! tid = Some (Offering m).
Proof.
  revert st. induction ls as [|l ls IH]; intros st Hrun Hp Hall; simpl in Hrun.
  - by simplify_eq.
  - destruct (exec l st) as [st1|] eqn:He; [|done].
    apply Forall_cons in Hall as [Hl Hall].
    apply (IH st1 Hrun); [|done]. by eapply exec_keeps_offer.
Qed.

(** Steps that are not the loop's leave the loop and the response writer
    alone. *)
Lemma exec_not_loop (l : Label) (st st' : State) :
  exec l st = Some st' -> by_loop l = false ->
  loop st' = loop st /\ sink (env st') = sink (env st).
Proof. intros H Hb. destruct l; try discriminate Hb; by exec_inv H. Qed.

Lemma run_not_loop (ls : list Label) (st st' : State) :
  run ls st = Some st' -> Forall (fun l => by_loop l = false) ls ->
  loop st' = loop st /\ sink (env st') = sink (env st).
Proof.
  revert st. induction ls as [|l ls IH]; intros st Hrun Hall; simpl in Hrun.
  - by simplify_eq.
  - destruct (exec l st) as [st1|] eqn:He; [|done].
    apply Forall_cons in Hall as [Hl Hall].
    destruct (exec_not_loop _ _ _ He Hl) as [Hl1 Hs1].
    destruct (IH st1 Hrun Hall) as [Hl' Hs']. split; congruence.
Qed.

Lemma calls_any_env (h : Heap) (m : Message) (e e' : Env) :
  calls h m e = calls h m e'.
Proof. by rewrite !calls_eq. Qed.

(** What a slice holds depends on its own array only. *)
Lemma bytes_at_lookup (h h' : Heap) (s : Slice) :
  h !! array s = h' !! array s -> bytes_at h s = bytes_at h' s.
Proof. intros H. unfold bytes_at. by rewrite H. Qed.

Lemma bytes_at_empty (h h' : Heap) (s : Slice) :
  len s = 0 -> bytes_at h s = bytes_at h' s.
Proof.
  intros H. unfold bytes_at. rewrite H.
  by destruct (h !! array s), (h' !! array s).
Qed.

Lemma calls_same_bytes (h h' : Heap) (m : Message) (e : Env) :
  bytes_at h (data m) = bytes_at h' (data m) -> calls h m e = calls h' m e.
Proof. intros H. by rewrite !calls_eq, H. Qed.

(** An array keeps its contents through every step but a caller's store
    into it, and the arrays made inside the package admit no such store. *)
Lemma exec_keeps_array (l : Label) (st st' : State) (a : nat) (arr : Array) :
  exec l st = Some st' -> heap st !! a = Some arr ->
  caller_held arr = false \/ writes_to a l = false ->
  heap st' !! a = Some arr.
Proof.
  intros H Ha Hok.
  destruct l; exec_inv H;
    cbn [heap with_loop with_env with_producer with_store with_conn with_done
         with_heap writes_to] in *;
    try done;
    try (unfold alloc; by apply lookup_app_l_Some).
  unfold poke.
  match goal with H : heap st !! ?a0 = Some ?x |- _ =>
    rewrite H; destruct (decide (a0 = a)) as [->|Hne] end.
  - simplify_eq.
    match goal with H : _ && _ = true |- _ => apply andb_prop in H as [Hh _] end.
    destruct Hok as [Hok|Hok]; [congruence|].
    by rewrite Nat.eqb_refl in Hok.
  - by rewrite list_lookup_insert_ne.
Qed.

Lemma run_keeps_array (ls : list Label) (st st' : State) (a : nat) (arr : Array) :
  run ls st = Some st' -> heap st !! a = Some arr ->
  caller_held arr = false \/ Forall (fun l => writes_to a l = false) ls ->
  heap st' !! a = Some arr.
Proof.
  revert st. induction ls as [|l ls IH]; intros st Hrun Ha Hok; simpl in Hrun.
  - by simplify_eq.
  - destruct (exec l st) as [st1|] eqn:He; [|done].
    apply (IH st1 Hrun).
    + apply (exec_keeps_array l st st1 a arr He Ha).
      destruct Hok as [Hok|Hok]; [by left|right].
      by apply Forall_cons in Hok as [Hl _].
    + destruct Hok as [Hok|Hok]; [by left|right].
      by apply Forall_cons in Hok as [_ Hls].
Qed.

(** C8.  At the send statement the caller copies the message its builder
    points to: the id, the event and the header of the data slice.  The
    copy it offers is the same whatever other steps happen before the loop
    takes it, and once the loop has taken it (the moment [send] returns) no
    step of any caller, a later [WithId], [WithEvent] or [Send*] on the same
    builder included, changes the struct the loop holds.  The bytes of the
    data are not copied: the loop writes the lines of the message with the
    bytes that the array of the data slice holds when it formats them.
    These are the bytes of the moment of the copy when the slice is empty,
    when its array was made inside the package (as for [SendString] and
    [SendJson]), or when no caller stores into that array in between. *)
Theorem handoff_is_a_copy (st : State) (tid mb : nat) (m : Message) :
  producers st !! tid = Some (AtHandoff mb) ->
  store st !! mb = Some m ->
  exec (SendEval tid) st = Some (with_producer tid (Offering m) st)
  /\ (forall ls st1, Forall (fun l => l <> LoopMessage tid) ls ->
       run (SendEval tid :: ls) st = Some st1 ->
       producers st1 !! tid = Some (Offering m))
  /\ (loop st = Waiting ->
       run [SendEval tid; LoopMessage tid] st =
         Some (with_producer tid (Idle (Some None)) (with_loop (Holding m) st))
       /\ forall ls st2, Forall (fun l => by_loop l = false) ls ->
            run ([SendEval tid; LoopMessage tid] ++ ls) st = Some st2 ->
            loop st2 = Holding m
            /\ (exists st3,
                 exec LoopWrite st2 = Some st3
                 /\ events (sink (env st3)) =
                    events (sink (env st)) ++ calls (heap st2) m (env st)
                 /\ wire (events (sink (env st3))) =
                    wire (events (sink (env st))) ++ written (heap st2) m (env st))
            /\ (len (data m) = 0
                \/ (exists arr, heap st !! array (data m) = Some arr
                      /\ (caller_held arr = false
                          \/ Forall (fun l => writes_to (array (data m)) l = false)
                               ls)) ->
                calls (heap st2) m (env st) = calls (heap st) m (env st)
                /\ written (heap st2) m (env st) = written (heap st) m (env st))).
Proof.
  intros Hp Hs.
  assert (exec (SendEval tid) st = Some (with_producer tid (Offering m) st)) as He.
  { simpl. by rewrite Hp, Hs. }
  split; [exact He|]. split.
  - intros ls st1 Hall Hrun. cbn [run] in Hrun. rewrite He in Hrun.
    apply (run_keeps_offer ls _ _ tid m Hrun); [|done].
    simpl. by rewrite lookup_insert_eq.
  - intros Hl.
    assert (run [SendEval tid; LoopMessage tid] st =
            Some (with_producer tid (Idle (Some None)) (with_loop (Holding m) st)))
      as Hr.
    { cbn [run]. rewrite He. simpl. rewrite Hl, lookup_insert_eq.
      unfold with_producer, with_loop. simpl. by rewrite insert_insert_eq. }
    split; [exact Hr|].
    intros ls st2 Hall Hrun. rewrite run_app, Hr in Hrun.
    destruct (run_not_loop _ _ _ Hrun Hall) as [Hl2 Hs2]. simpl in Hl2, Hs2.
    split; [done|]. split.
    + exists (with_loop Waiting (with_env (on_message (heap st2) m (env st2)) st2)).
      split; [simpl; by rewrite Hl2|].
      assert (events (sink (on_message (heap st2) m (env st2))) =
              events (sink (env st)) ++ calls (heap st2) m (env st)) as Hev.
      { rewrite on_message_events, Hs2. f_equal. apply calls_any_env. }
      split; [exact Hev|].
      change (wire (events (sink (on_message (heap st2) m (env st2)))) =
              wire (events (sink (env st))) ++ written (heap st2) m (env st)).
      rewrite Hev, wire_app. reflexivity.
    + intros Hsame.
      assert (bytes_at (heap st2) (data m) = bytes_at (heap st) (data m)) as Hb.
      { destruct Hsame as [Hlen|(arr & Harr & Hok)]; [by apply bytes_at_empty|].
        apply bytes_at_lookup. rewrite Harr.
        by apply (run_keeps_array ls _ st2 _ arr Hrun). }
      split; [by apply calls_same_bytes|].
      unfold written. f_equal. by apply calls_same_bytes.
Qed.

(** ** Reporting write errors *)

Lemma failures_take_add (j k : nat) (fs : list (option error)) :
  failures (take (j + k) fs) = failures (take j fs) ++ failures (take k (drop j fs)).
Proof. unfold failures. by rewrite <- take_take_drop, omap_app. Qed.

Lemma accounted_refl (e : Env) : accounted 0 e e.
Proof.
  unfold accounted. rewrite take_0. simpl.
  rewrite drop_0, Nat.sub_0_r, take_nil, drop_nil, !app_nil_r. done.
Qed.

Lemma accounted_trans (j k : nat) (e1 e2 e3 : Env) :
  accounted j e1 e2 -> accounted k e2 e3 -> accounted (j + k) e1 e3.
Proof.
  intros (Hf & Hr & Hd & Hl) (Hf' & Hr' & Hd' & Hl').
  rewrite Hf in Hf', Hr', Hd', Hl'.
  unfold accounted. rewrite Hf', Hr', Hd', Hl', Hr, Hd, Hl, failures_take_add.
  split; [by rewrite drop_drop|]. split; [rewrite length_app; lia|]. split.
  - by rewrite take_app, <- app_assoc.
  - by rewrite drop_app, fmap_app, <- app_assoc.
Qed.

Lemma accounted_emit (f a : list byte) (e : Env) : accounted 1 e (emit f a e).
Proof.
  unfold accounted, emit, Fprintf, Write, failures, log_line.
  destruct (faults (sink e)) as [|[x|] fs]; simpl;
    destruct (receivers e) as [|n]; simpl;
    rewrite ?app_nil_r, ?Nat.sub_0_r, ?take_nil, ?drop_nil, ?take_0, ?drop_0;
    simpl; rewrite ?app_nil_r; done.
Qed.

Lemma accounted_flush (k : nat) (e e' : Env) :
  accounted k e e' -> accounted k e (with_sink (Flush (sink e')) e').
Proof. intros H. exact H. Qed.

Lemma on_message_accounted (h : Heap) (m : Message) (e : Env) :
  accounted (writes_for m) e (on_message h m e).
Proof.
  unfold on_message, writes_for. cbv zeta. apply accounted_flush.
  apply accounted_trans with
    (e2 := if (0 <? String.length (event m))%nat
           then emit fmt_event (bytes_of (event m))
                  (if (0 <? String.length (id m))%nat
                   then emit fmt_id (bytes_of (id m)) e else e)
           else if (0 <? String.length (id m))%nat
                then emit fmt_id (bytes_of (id m)) e else e);
    [|apply accounted_emit].
  apply accounted_trans with
    (e2 := if (0 <? String.length (id m))%nat
           then emit fmt_id (bytes_of (id m)) e else e).
  - destruct (0 <? String.length (id m))%nat;
      [apply accounted_emit|apply accounted_refl].
  - destruct (0 <? String.length (event m))%nat;
      [apply accounted_emit|apply accounted_refl].
Qed.

(** X1.  Handling a message uses up one outcome of the response writer per
    [Fprintf] call it makes, and reports each failed write exactly once, in
    order: to a goroutine waiting on the error channel as long as there is
    one, and as a log line [sse write error: ...] after that.  Writes that
    succeed report nothing. *)
Theorem write_errors_reported_once (h : Heap) (m : Message) (e : Env) :
  faults (sink (on_message h m e)) = drop (writes_for m) (faults (sink e))
  /\ receivers (on_message h m e) =
     receivers e - length (failures (take (writes_for m) (faults (sink e))))
  /\ delivered (on_message h m e) =
     delivered e
     ++ take (receivers e) (failures (take (writes_for m) (faults (sink e))))
  /\ logged (on_message h m e) =
     logged e
     ++ (log_line <$>
           drop (receivers e) (failures (take (writes_for m) (faults (sink e))))).
Proof. exact (on_message_accounted h m e). Qed.

(** X2.  As long as no goroutine receives from the error channel, no error is
    ever delivered on it: whatever the schedule, the channel stays without a
    receiver and the list of delivered errors does not change. *)
Theorem no_listener_no_delivery (ls : list Label) (st st' : State) :
  Forall (fun l => l <> Listen) ls ->
  receivers (env st) = 0 ->
  run ls st = Some st' ->
  receivers (env st') = 0 /\ delivered (env st') = delivered (env st).
Proof.
  revert st. induction ls as [|l ls IH]; intros st Hall Hr Hrun; simpl in Hrun.
  - by simplify_eq.
  - destruct (exec l st) as [st1|] eqn:He; [|done].
    apply Forall_cons in Hall as [Hl Hall].
    assert (receivers (env st1) = 0 /\ delivered (env st1) = delivered (env st))
      as [Hr1 Hd1].
    { destruct l; try done; exec_inv He; try (simpl; done).
      cbn [env with_loop with_env with_heap].
      match goal with
      | |- context [on_message ?h ?m _] =>
          destruct (on_message_accounted h m (env st)) as (_ & Hrec & Hdel & _)
      end.
      rewrite Hrec, Hdel, Hr. simpl. by rewrite take_0, app_nil_r. }
    destruct (IH st1 Hall Hr1 Hrun) as [Hr' Hd']. split; [done|congruence].
Qed.

(** ** What reaches the response writer *)

Lemma exec_queue (l : Label) (st st1 : State) :
  exec l st = Some st1 ->
  held (loop st) ++ match l with LoopMessage _ => held (loop st1) | _ => [] end =
  match l, loop st with LoopWrite, Holding m => [m] | _, _ => [] end
  ++ held (loop st1).
Proof.
  intros H. destruct l; exec_inv H;
    cbn [env with_loop with_env with_producer with_store with_conn with_done
         loop sink with_heap];
    repeat match goal with H : loop _ = _ |- _ => rewrite H end;
    cbn [held app]; rewrite ?app_nil_r; done.
Qed.

Lemma exec_written (l : Label) (st st1 : State) :
  exec l st = Some st1 ->
  events (sink (env st1)) =
  events (sink (env st))
  ++ match l, loop st with
     | LoopWrite, Holding m => calls (heap st) m (env st)
     | _, _ => []
     end.
Proof.
  intros H. destruct l; exec_inv H;
    cbn [env with_loop with_env with_producer with_store with_conn with_done
         loop sink with_heap];
    repeat match goal with H : loop _ = _ |- _ => rewrite H end;
    rewrite ?on_message_events, ?app_nil_r; done.
Qed.

Lemma slice_in_grows (h h' : Heap) (s : Slice) :
  length h <= length h' -> slice_in h s -> slice_in h' s.
Proof. intros Hle [Hz|Hlt]; [by left|right; lia]. Qed.

Lemma caller_slice_in (h : Heap) (s : Slice) :
  caller_slice h s = true -> slice_in h s.
Proof.
  unfold caller_slice, slice_in. intros H.
  apply orb_prop in H as [H|H]; [left; by apply Nat.eqb_eq in H|right].
  destruct (h !! array s) eqn:Ha; [|done]. by apply lookup_lt_Some in Ha.
Qed.

Lemma length_poke (a i : nat) (b : byte) (h : Heap) :
  length (poke a i b h) = length h.
Proof. unfold poke. destruct (h !! a); [apply length_insert|done]. Qed.

Lemma exec_heap_grows (l : Label) (st st' : State) :
  exec l st = Some st' -> length (heap st) <= length (heap st').
Proof.
  intros H. destruct l; exec_inv H;
    cbn [heap with_loop with_env with_producer with_store with_conn with_done
         with_heap];
    rewrite ?length_poke; unfold alloc; rewrite ?length_app; simpl; lia.
Qed.

(** Every step keeps the data of every message in memory. *)
Lemma exec_settled (l : Label) (st st' : State) :
  exec l st = Some st' -> settled st -> settled st'.
Proof.
  intros H (Hstore & Hoffer & Hheld).
  pose proof (exec_heap_grows l st st' H) as Hgrow.
  assert (forall s, slice_in (heap st) s -> slice_in (heap st') s) as Hmono
    by (intros s; by apply slice_in_grows).
  assert (forall d, slice_in (alloc false d (heap st)) (fresh_slice d (heap st)))
    as Hfresh.
  { intros d. right. unfold alloc, fresh_slice. rewrite length_app. simpl. lia. }
  unfold settled.
  destruct l; exec_inv H;
    cbn [heap store producers loop with_loop with_env with_producer with_store
         with_conn with_done with_heap] in *;
    (split; [|split]);
    try (intros mb0 m0 Hm0;
         first [ by eauto
               | destruct (decide (mb = mb0)) as [->|Hd];
                 [rewrite lookup_insert_eq in Hm0
                 |rewrite lookup_insert_ne in Hm0 by done];
                 simplify_eq; cbn [data set_id set_event set_data zero_Message
                                   nil_slice len];
                 eauto using caller_slice_in; by left ]);
    try (intros t0 m0 Hm0;
         first [ by eauto
               | destruct (decide (tid = t0)) as [->|Hd];
                 [rewrite lookup_insert_eq in Hm0
                 |rewrite lookup_insert_ne in Hm0 by done];
                 simplify_eq; by eauto ]);
    try (intros m0 Hm0; simplify_eq; by eauto);
    try (intros m0 Hm0; congruence).
Qed.

Lemma run_settled (ls : list Label) (st st' : State) :
  run ls st = Some st' -> settled st -> settled st'.
Proof.
  revert st. induction ls as [|l ls IH]; intros st Hrun Hset; simpl in Hrun.
  - by simplify_eq.
  - destruct (exec l st) as [st1|] eqn:He; [|done].
    apply (IH st1 Hrun). by apply (exec_settled l st).
Qed.

(** The state right after [Upgrade] is settled when no caller is already
    inside a send. *)
Lemma start_settled (w : ResponseWriter) (n : nat) (callers : gmap nat Producer)
    (st : State) :
  start (Upgrade w n) callers = Some st ->
  (forall tid m, callers !! tid <> Some (Offering m)) ->
  settled st.
Proof.
  intros Hstart Hno. unfold start, Upgrade in Hstart.
  destruct (flusher w); simpl in Hstart; [|done]. simplify_eq.
  split; [|split]; cbn [store producers loop heap].
  - intros mb m H. by rewrite lookup_empty in H.
  - intros tid m H. by destruct (Hno tid m).
  - intros m H. discriminate.
Qed.

(** Without a caller's store, the arrays that exist keep their contents. *)
Lemma exec_no_store (l : Label) (st st' : State) (a : nat) :
  exec l st = Some st' -> no_store l = true -> a < length (heap st) ->
  heap st' !! a = heap st !! a.
Proof.
  intros H Hn Ha. destruct l; try discriminate Hn; exec_inv H;
    cbn [heap with_loop with_env with_producer with_store with_conn with_done
         with_heap];
    try done; unfold alloc; by rewrite lookup_app_l.
Qed.

Lemma run_no_store (ls : list Label) (st st' : State) (s : Slice) :
  run ls st = Some st' -> Forall (fun l => no_store l = true) ls ->
  slice_in (heap st) s -> bytes_at (heap st') s = bytes_at (heap st) s.
Proof.
  revert st. induction ls as [|l ls IH]; intros st Hrun Hall Hin; simpl in Hrun.
  - by simplify_eq.
  - destruct (exec l st) as [st1|] eqn:He; [|done].
    apply Forall_cons in Hall as [Hl Hall].
    rewrite (IH st1 Hrun Hall);
      [|by apply (slice_in_grows (heap st)); [apply (exec_heap_grows l)|]].
    destruct Hin as [Hz|Hlt]; [by apply bytes_at_empty|].
    apply bytes_at_lookup. by apply (exec_no_store l).
Qed.

(** X3.  Along every schedule the messages the loop writes are the messages
    it received, in the order in which it received them, the last one
    received being possibly still held; the calls received by the response
    writer are the calls it had received before followed by the calls of
    the messages written, message by message, each with the bytes its data
    held when it was written.  Nothing is dropped, repeated or reordered,
    and nothing else is written.  When no caller stores into a buffer along
    the schedule, these are the calls of the messages as they are in memory
    at the end. *)
Theorem writer_sees_messages_in_order (ls : list Label) (st st' : State) :
  run ls st = Some st' ->
  held (loop st) ++ taken ls st = (snd <$> wrote ls st) ++ held (loop st')
  /\ events (sink (env st')) =
     events (sink (env st))
     ++ concat ((fun hm => calls hm.1 hm.2 (env st)) <$> wrote ls st)
  /\ wire (events (sink (env st'))) =
     wire (events (sink (env st)))
     ++ concat ((fun hm => written hm.1 hm.2 (env st)) <$> wrote ls st)
  /\ (settled st -> Forall (fun l => no_store l = true) ls ->
      events (sink (env st'))
      ++ concat ((fun m => calls (heap st') m (env st)) <$> held (loop st')) =
      events (sink (env st))
      ++ concat ((fun m => calls (heap st') m (env st)) <$>
                   (held (loop st) ++ taken ls st))
      /\ wire (events (sink (env st')))
         ++ concat ((fun m => written (heap st') m (env st)) <$> held (loop st')) =
         wire (events (sink (env st)))
         ++ concat ((fun m => written (heap st') m (env st)) <$>
                      (held (loop st) ++ taken ls st))).
Proof.
  intros Hrun.
  assert (held (loop st) ++ taken ls st = (snd <$> wrote ls st) ++ held (loop st'))
    as Hq.
  { revert st Hrun. induction ls as [|l ls IH]; intros st Hrun; simpl in Hrun.
    - simplify_eq. simpl. by rewrite app_nil_r.
    - simpl. destruct (exec l st) as [st1|] eqn:He; [|done].
      specialize (IH st1 Hrun). pose proof (exec_queue l st st1 He) as Hstep.
      destruct l; destruct (loop st) eqn:Hl; cbn [fmap list_fmap app snd] in *;
        rewrite ?app_nil_r in Hstep;
        rewrite ?app_assoc, ?Hstep, <- ?app_assoc, <- ?IH; try done;
        by rewrite <- Hstep. }
  assert (forall e0,
            events (sink (env st')) =
            events (sink (env st))
            ++ concat ((fun hm => calls hm.1 hm.2 e0) <$> wrote ls st)) as Hev.
  { intros e0. clear Hq. revert st Hrun. induction ls as [|l ls IH]; intros st Hrun;
      simpl in Hrun.
    - simplify_eq. simpl. by rewrite app_nil_r.
    - simpl. destruct (exec l st) as [st1|] eqn:He; [|done].
      rewrite (IH st1 Hrun). rewrite (exec_written l st st1 He).
      destruct l; destruct (loop st);
        cbn [fmap list_fmap concat fst snd]; rewrite <- ?app_assoc, ?app_nil_r;
        try done.
      by rewrite (calls_any_env _ _ (env st) e0). }
  assert (forall e0 (ps : list (Heap * Message)),
            wire (concat ((fun hm => calls hm.1 hm.2 e0) <$> ps)) =
            concat ((fun hm => written hm.1 hm.2 e0) <$> ps)) as Hw.
  { intros e0. induction ps as [|hm ps IHp]; [done|].
    rewrite !fmap_cons. cbn [concat]. by rewrite wire_app, IHp. }
  split; [exact Hq|]. split; [apply Hev|]. split.
  { rewrite (Hev (env st)), wire_app. by rewrite Hw. }
  intros Hset Hno.
  assert (forall hm, hm ∈ wrote ls st ->
            bytes_at hm.1 (data hm.2) = bytes_at (heap st') (data hm.2)) as Hsame.
  { clear Hq Hev. revert st Hrun Hset.
    induction ls as [|l ls IH]; intros st Hrun Hset hm Hin; simpl in Hrun, Hin.
    - by apply elem_of_nil in Hin.
    - destruct (exec l st) as [st1|] eqn:He; [|by apply elem_of_nil in Hin].
      apply Forall_cons in Hno as [Hl Hno].
      pose proof (exec_settled l st st1 He Hset) as Hset1.
      assert (forall hm, hm ∈ wrote ls st1 ->
                bytes_at hm.1 (data hm.2) = bytes_at (heap st') (data hm.2)) as IH'
        by (intros; by apply (IH Hno st1)).
      destruct l; destruct (loop st) eqn:Hloop; try (by apply IH').
      apply elem_of_cons in Hin as [->|Hin]; [|by apply IH'].
      cbn [fst snd]. symmetry.
      apply (run_no_store (LoopWrite :: ls) st st').
      + cbn [run]. by rewrite He.
      + by constructor.
      + destruct Hset as (_ & _ & Hheld). by apply Hheld. }
  assert (forall e0, concat ((fun hm => calls hm.1 hm.2 e0) <$> wrote ls st) =
                     concat ((fun m => calls (heap st') m e0) <$> (snd <$> wrote ls st)))
    as Hconv.
  { intros e0. revert Hsame. generalize (wrote ls st).
    induction l as [|hm ps IHp]; intros Hsame; [done|].
    rewrite !fmap_cons. cbn [concat]. rewrite IHp.
    - f_equal. apply calls_same_bytes, Hsame. by left.
    - intros hm' Hin. apply Hsame. by right. }
  assert (events (sink (env st'))
          ++ concat ((fun m => calls (heap st') m (env st)) <$> held (loop st')) =
          events (sink (env st))
          ++ concat ((fun m => calls (heap st') m (env st)) <$>
                       (held (loop st) ++ taken ls st))) as Hold.
  { rewrite Hq, fmap_app, concat_app, app_assoc. f_equal.
    rewrite <- Hconv. apply Hev. }
  split; [exact Hold|].
  apply (f_equal wire) in Hold. rewrite !wire_app in Hold.
  assert (forall ms, wire (concat ((fun m => calls (heap st') m (env st)) <$> ms)) =
                     concat ((fun m => written (heap st') m (env st)) <$> ms)) as Hw'.
  { induction ms as [|m ms IHm]; [done|].
    rewrite !fmap_cons. cbn [concat]. by rewrite wire_app, IHm. }
  by rewrite !Hw' in Hold.
Qed.

(** X4.  The response writer belongs to the loop: the only step that changes
    it is the loop's writing of the message it holds.  A caller's step
    changes neither the writer and the error plumbing, nor the connection,
    nor the loop.  No step changes the headers, and the trace of calls only
    grows. *)
Theorem only_the_loop_writes (l : Label) (st st' : State) :
  exec l st = Some st' ->
  (l <> LoopWrite -> sink (env st') = sink (env st))
  /\ (caller_of l <> None ->
      env st' = env st /\ conn st' = conn st /\ loop st' = loop st
      /\ ctx_done st' = ctx_done st)
  /\ header (sink (env st')) = header (sink (env st))
  /\ events (sink (env st)) `prefix_of` events (sink (env st')).
Proof.
  intros H.
  assert (header (sink (env st')) = header (sink (env st))
          /\ events (sink (env st)) `prefix_of` events (sink (env st'))) as Hgrow.
  { destruct l; exec_inv H;
      cbn [env with_loop with_env with_producer with_store with_conn with_done sink with_heap];
      try done.
    rewrite on_message_events, on_message_sink. split; [|by eexists].
    unfold Part000.on_message, Fprintf, Write. simpl.
    by repeat (case_match; simpl). }
  split; [|split; [|exact Hgrow]].
  - intros Hl. destruct l; try done; by exec_inv H.
  - intros Hc. destruct l; try done; by exec_inv H.
Qed.

(** ** Callers that wait for the loop *)

(** X5.  Once the loop has returned, a caller that waits for it never
    returns: whatever the schedule, a caller inside the send on the message
    channel stays inside it, keeping the message it offers, and a caller
    inside [Close] stays inside [Close]. *)
Theorem blocked_forever_after_stop (ls : list Label) (st st' : State)
    (tid : nat) (p : Producer) :
  loop st = Stopped ->
  producers st !! tid = Some p -> waits_for_loop p = true ->
  run ls st = Some st' ->
  exists p', producers st' !! tid = Some p' /\ waits_for_loop p' = true
             /\ (forall m, p = Offering m -> p' = Offering m)
             /\ (p = Closing -> p' = Closing).
Proof. intros Hl Hp Hw Hrun. by apply (run_stopped_waits ls st). Qed.

(** X6.  The test of [isOpen] does not protect a send from the disconnect: a
    caller that has passed the test while the connection was open can go on
    to its channel send after the request context was done and the loop has
    returned, and from then on it offers its message forever, while
    [IsOpen] reports false. *)
Theorem send_can_miss_the_disconnect (st : State) (tid mb : nat) (m : Message) :
  isOpen (conn st) = true -> loop st = Waiting ->
  producers st !! tid = Some (AtSend mb) -> store st !! mb = Some m ->
  exists st1,
    run [SendTest tid; Cancel; LoopDone; SendEval tid] st = Some st1
    /\ IsOpen st1 = false /\ loop st1 = Stopped
    /\ producers st1 !! tid = Some (Offering m)
    /\ forall ls st2, run ls st1 = Some st2 ->
         producers st2 !! tid = Some (Offering m).
Proof.
  intros Ho Hl Hp Hs.
  eexists. split.
  { simpl. rewrite Hp, Ho. simpl. rewrite Hl. simpl.
    rewrite lookup_insert_eq, Hs. reflexivity. }
  simpl. rewrite lookup_insert_eq. repeat split.
  intros ls st2 Hrun.
  destruct (run_stopped_waits ls _ st2 tid (Offering m) Hrun)
    as (p' & Hp' & _ & Hsame & _); try done.
  { simpl. by rewrite lookup_insert_eq. }
  by rewrite (Hsame m eq_refl) in Hp'.
Qed.

(** X7.  [Close] returns when, and only when, the loop receives its signal.
    With the loop waiting the call goes through and leaves everything but
    the caller as it was, [IsOpen] included; while the loop holds a message
    the signal cannot be received; and whatever step takes a caller out of
    [Close] is the loop's receive on the shutdown channel. *)
Theorem Close_waits_for_the_loop (st : State) (tid : nat) (r : option (option error)) :
  producers st !! tid = Some (Idle r) ->
  exec (CallClose tid) st = Some (with_producer tid Closing st)
  /\ (loop st = Waiting ->
      run [CallClose tid; LoopShutdown tid] st = Some (with_producer tid (Idle None) st))
  /\ (loop st <> Waiting ->
      run [CallClose tid; LoopShutdown tid] st = None)
  /\ (forall l st1 st2 p,
        exec (CallClose tid) st = Some st1 -> exec l st1 = Some st2 ->
        producers st2 !! tid = Some p -> p <> Closing ->
        l = LoopShutdown tid /\ p = Idle None /\ loop st1 = Waiting
        /\ IsOpen st2 = IsOpen st /\ env st2 = env st /\ store st2 = store st).
Proof.
  intros Hp.
  assert (exec (CallClose tid) st = Some (with_producer tid Closing st)) as Hc.
  { simpl. by rewrite Hp. }
  split; [exact Hc|]. split; [|split].
  - intros Hl. cbn [run]. rewrite Hc. simpl. rewrite Hl, lookup_insert_eq.
    by rewrite with_producer_twice.
  - intros Hl. cbn [run]. rewrite Hc. simpl. by destruct (loop st).
  - intros l st1 st2 p H1 H2 Hp2 Hne. rewrite Hc in H1. simplify_eq.
    destruct l; exec_inv H2;
      cbn [producers with_loop with_env with_producer with_store with_conn with_done with_heap]
        in *;
      try (rewrite lookup_insert_eq in *; congruence);
      match goal with
      | H : <[?t := _]> (<[tid := _]> _) !! tid = _ |- _ =>
          destruct (decide (t = tid)) as [->|Hd];
          [rewrite lookup_insert_eq in *
          | rewrite lookup_insert_ne, lookup_insert_eq in H by done];
          simplify_eq
      end.
    done.
Qed.

(** ** The open flag *)

Lemma exec_open_invariant (l : Label) (st st' : State) :
  exec l st = Some st' ->
  (isOpen (conn st) = false <-> loop st = Stopped) ->
  (isOpen (conn st) = false -> ctx_done st = true) ->
  (isOpen (conn st') = false <-> loop st' = Stopped)
  /\ (isOpen (conn st') = false -> ctx_done st' = true).
Proof.
  intros H Hiff Hdone.
  destruct l; exec_inv H;
    cbn [conn loop ctx_done with_loop with_env with_producer with_store with_conn
         with_done close_conn isOpen with_heap];
    intuition congruence.
Qed.

(** X8.  On a connection obtained from [Upgrade], [IsOpen] reports true at
    first, and along every schedule it reports false exactly when the loop
    has returned, which happens only after the request context was done. *)
Theorem IsOpen_tells_loop_stopped (w : ResponseWriter) (n : nat)
    (callers : gmap nat Producer) (st0 st' : State) (ls : list Label) :
  start (Upgrade w n) callers = Some st0 ->
  run ls st0 = Some st' ->
  IsOpen st0 = true
  /\ (IsOpen st' = false <-> loop st' = Stopped)
  /\ (IsOpen st' = false -> ctx_done st' = true).
Proof.
  intros Hstart Hrun.
  assert (IsOpen st0 = true /\ loop st0 = Waiting) as [Ho Hl].
  { unfold start, Upgrade in Hstart. destruct (flusher w); simpl in Hstart; [|done].
    by simplify_eq. }
  split; [exact Ho|]. unfold IsOpen in *.
  assert ((isOpen (conn st0) = false <-> loop st0 = Stopped)
          /\ (isOpen (conn st0) = false -> ctx_done st0 = true)) as Hinv.
  { rewrite Ho, Hl. split; [split|]; done. }
  clear Hstart Ho Hl. revert st0 Hrun Hinv.
  induction ls as [|l ls IH]; intros st0 Hrun [H1 H2]; simpl in Hrun.
  - by simplify_eq.
  - destruct (exec l st0) as [st1|] eqn:He; [|done].
    apply (IH st1 Hrun). by apply (exec_open_invariant l st0).
Qed.

(** ** Builders *)

Lemma with_store_producer_swap (tid : nat) (p : Producer) (s : gmap nat Message)
    (st : State) :
  with_store s (with_producer tid p st) = with_producer tid p (with_store s st).
Proof. reflexivity. Qed.

Lemma two_updates (st : State) (tid mb : nat) (l1 l2 : Label)
    (f g h : Message -> Message) :
  (forall s, exec l1 s = update_message tid mb f (fun p => p) s) ->
  (forall s, exec l2 s = update_message tid mb g (fun p => p) s) ->
  (forall m, g (f m) = h m) ->
  run [l1; l2] st =
  match producers st !! tid, store st !! mb with
  | Some (Idle r), Some m =>
      Some (with_producer tid (Idle r) (with_store (<[mb := h m]> (store st)) st))
  | _, _ => None
  end.
Proof.
  intros H1 H2 Hfg. cbn [run]. rewrite H1. unfold update_message at 1.
  destruct (producers st !! tid) as [[r| | | |]|] eqn:Hp; try done.
  destruct (store st !! mb) as [m|] eqn:Hs; [|done].
  rewrite H2. unfold update_message. simpl. rewrite !lookup_insert_eq, Hfg.
  unfold with_producer, with_store. simpl.
  by rewrite !insert_insert_eq.
Qed.

(** X9.  [WithId] and [WithEvent] on the same builder can be called in either
    order with the same outcome, and of two calls that set the same field
    the later one decides; after [WithId a] and [WithEvent b] the builder's
    message has id [a], event [b] and the data it had. *)
Theorem WithId_WithEvent_compose (st : State) (tid mb : nat) (a b : string) :
  run [CallWithId tid mb a; CallWithEvent tid mb b] st =
  run [CallWithEvent tid mb b; CallWithId tid mb a] st
  /\ (forall a0, run [CallWithId tid mb a0; CallWithId tid mb a] st =
                 run [CallWithId tid mb a] st)
  /\ (forall b0, run [CallWithEvent tid mb b0; CallWithEvent tid mb b] st =
                 run [CallWithEvent tid mb b] st)
  /\ (forall r m, producers st !! tid = Some (Idle r) -> store st !! mb = Some m ->
        exists st',
          run [CallWithId tid mb a; CallWithEvent tid mb b] st = Some st'
          /\ store st' !! mb = Some {| id := a; event := b; data := data m |}
          /\ producers st' !! tid = Some (Idle r)
          /\ env st' = env st /\ conn st' = conn st /\ loop st' = loop st).
Proof.
  split; [|split; [|split]].
  - rewrite (two_updates st tid mb _ _ (set_id a) (set_event b)
               (fun m => {| id := a; event := b; data := data m |})) by done.
    by rewrite (two_updates st tid mb _ _ (set_event b) (set_id a)
                  (fun m => {| id := a; event := b; data := data m |})) by done.
  - intros a0.
    rewrite (two_updates st tid mb _ _ (set_id a0) (set_id a) (set_id a)) by done.
    simpl. unfold update_message. by repeat case_match.
  - intros b0.
    rewrite (two_updates st tid mb _ _ (set_event b0) (set_event b) (set_event b))
      by done.
    simpl. unfold update_message. by repeat case_match.
  - intros r m Hp Hs. eexists. split.
    + rewrite (two_updates st tid mb _ _ (set_id a) (set_event b)
                 (fun m => {| id := a; event := b; data := data m |})) by done.
      rewrite Hp, Hs. reflexivity.
    + simpl. by rewrite !lookup_insert_eq.
Qed.

(** X10.  A step works on one builder at most: the message of every other
    builder is left as it is, and a message, once allocated, stays
    allocated.  Steps of the loop and of the surroundings do not touch any
    builder's message. *)
Theorem builders_are_separate (l : Label) (st st' : State) :
  exec l st = Some st' ->
  (forall mb, builder_of l <> Some mb -> store st' !! mb = store st !! mb)
  /\ (forall mb m, store st !! mb = Some m -> is_Some (store st' !! mb))
  /\ (builder_of l = None -> store st' = store st).
Proof.
  intros H.
  destruct l; exec_inv H;
    cbn [store builder_of with_loop with_env with_producer with_store with_conn
         with_done with_heap];
    (split; [|split]); try done; try (intros; by eauto);
    try (intros mb0 Hne; apply lookup_insert_ne; congruence);
    try (intros mb0 m0 Hm0; destruct (decide (mb = mb0)) as [->|Hd];
         [rewrite lookup_insert_eq | rewrite lookup_insert_ne by done]; by eauto).
Qed.

(** ** Sends that go through *)

(** A slice over a new array holds the bytes the array was made of. *)
Lemma bytes_at_fresh (held : bool) (d : list byte) (h : Heap) :
  bytes_at (alloc held d h) (fresh_slice d h) = d.
Proof.
  unfold bytes_at, alloc, fresh_slice. cbn [array off len].
  rewrite list_lookup_middle by done. cbn [cells drop]. apply firstn_all.
Qed.

(** A send on an open connection with the loop waiting, from the assignment
    of the data field to the flush.  [st] is the state the assignment is
    made in: [st0] itself for [SendBytes], and [st0] with one more array for
    [SendString] and [SendJson]. *)
Lemma send_delivered (st0 st : State) (tid mb : nat) (r : option (option error))
    (m : Message) (f : Message -> Message) (l : Label) :
  exec l st0 = update_message tid mb f (fun _ => AtSend mb) st ->
  isOpen (conn st) = true -> loop st = Waiting ->
  producers st !! tid = Some (Idle r) -> store st !! mb = Some m ->
  run [l; SendTest tid; SendEval tid; LoopMessage tid; LoopWrite] st0 =
  Some (with_loop Waiting
          (with_env (on_message (heap st) (f m) (env st))
             (with_producer tid (Idle (Some None))
                (with_store (<[mb := f m]> (store st)) st)))).
Proof.
  intros Hex Ho Hl Hp Hs. cbn [run]. rewrite Hex. unfold update_message.
  rewrite Hp, Hs. simpl.
  rewrite lookup_insert_eq, Ho. simpl. rewrite !lookup_insert_eq. simpl.
  rewrite Hl, lookup_insert_eq. simpl.
  unfold with_loop, with_env, with_producer, with_store. simpl.
  by rewrite !insert_insert_eq.
Qed.

(** The same for a send that makes its own array of the bytes [b]. *)
Lemma send_fresh_delivered (st : State) (tid mb : nat) (r : option (option error))
    (m : Message) (b : list byte) (l : Label) :
  exec l st =
    update_message tid mb (set_data (fresh_slice b (heap st)))
      (fun _ => AtSend mb) (with_heap (alloc false b (heap st)) st) ->
  isOpen (conn st) = true -> loop st = Waiting ->
  producers st !! tid = Some (Idle r) -> store st !! mb = Some m ->
  exists st',
    run [l; SendTest tid; SendEval tid; LoopMessage tid; LoopWrite] st = Some st'
    /\ heap st' = alloc false b (heap st)
    /\ bytes_at (heap st') (fresh_slice b (heap st)) = b
    /\ events (sink (env st')) =
       events (sink (env st))
       ++ calls (heap st')
            {| id := id m; event := event m; data := fresh_slice b (heap st) |}
            (env st)
    /\ store st' !! mb =
       Some {| id := id m; event := event m; data := fresh_slice b (heap st) |}
    /\ producers st' !! tid = Some (Idle (Some None))
    /\ loop st' = Waiting /\ conn st' = conn st.
Proof.
  intros Hex Ho Hl Hp Hs. eexists. split.
  - by apply (send_delivered st _ tid mb r m _ l Hex).
  - cbn [env loop conn store producers heap with_loop with_env with_producer
         with_store with_heap].
    rewrite on_message_events, !lookup_insert_eq, bytes_at_fresh. done.
Qed.

(** X11.  A builder's send sets the data field only: on an open connection
    with the loop waiting, [SendBytes] lets the loop write the message with
    the id and event the builder had and the new data, returns nil, and the
    builder keeps that message, so a further send on the same builder
    repeats its id and event.  [SendString] is [SendBytes] of a slice over
    an array of its own that holds the string's bytes, and [SendJson] is
    [SendBytes] of one that holds what [json.Marshal] returns: the response
    writer receives the calls it receives from [SendBytes] of a caller's
    slice with these bytes, and the caller gets the same answer. *)
Theorem builder_send_goes_through (st : State) (tid mb : nat)
    (r : option (option error)) (m : Message) :
  isOpen (conn st) = true -> loop st = Waiting ->
  producers st !! tid = Some (Idle r) -> store st !! mb = Some m ->
  (forall d, caller_slice (heap st) d = true ->
   exists st',
     run [CallSendBytes tid mb d; SendTest tid; SendEval tid; LoopMessage tid; LoopWrite]
       st = Some st'
     /\ events (sink (env st')) =
        events (sink (env st))
        ++ calls (heap st) {| id := id m; event := event m; data := d |} (env st)
     /\ store st' !! mb = Some {| id := id m; event := event m; data := d |}
     /\ producers st' !! tid = Some (Idle (Some None))
     /\ loop st' = Waiting /\ conn st' = conn st /\ heap st' = heap st)
  /\ (forall s, exists st',
     run [CallSendString tid mb s; SendTest tid; SendEval tid; LoopMessage tid;
          LoopWrite] st = Some st'
     /\ heap st' = alloc false (bytes_of s) (heap st)
     /\ bytes_at (heap st') (fresh_slice (bytes_of s) (heap st)) = bytes_of s
     /\ events (sink (env st')) =
        events (sink (env st))
        ++ calls (heap st')
             {| id := id m; event := event m;
                data := fresh_slice (bytes_of s) (heap st) |} (env st)
     /\ store st' !! mb =
        Some {| id := id m; event := event m;
                data := fresh_slice (bytes_of s) (heap st) |}
     /\ producers st' !! tid = Some (Idle (Some None))
     /\ loop st' = Waiting /\ conn st' = conn st)
  /\ (forall v b, json_Marshal v = inl b -> exists st',
     run [CallSendJson tid mb v; SendTest tid; SendEval tid; LoopMessage tid;
          LoopWrite] st = Some st'
     /\ heap st' = alloc false b (heap st)
     /\ bytes_at (heap st') (fresh_slice b (heap st)) = b
     /\ events (sink (env st')) =
        events (sink (env st))
        ++ calls (heap st')
             {| id := id m; event := event m; data := fresh_slice b (heap st) |}
             (env st)
     /\ store st' !! mb =
        Some {| id := id m; event := event m; data := fresh_slice b (heap st) |}
     /\ producers st' !! tid = Some (Idle (Some None))
     /\ loop st' = Waiting /\ conn st' = conn st)
  /\ (forall s d, caller_slice (heap st) d = true ->
        bytes_at (heap st) d = bytes_of s ->
        exists st1 st2,
          run [CallSendString tid mb s; SendTest tid; SendEval tid; LoopMessage tid;
               LoopWrite] st = Some st1
          /\ run [CallSendBytes tid mb d; SendTest tid; SendEval tid; LoopMessage tid;
                  LoopWrite] st = Some st2
          /\ events (sink (env st1)) = events (sink (env st2))
          /\ producers st1 !! tid = producers st2 !! tid
          /\ loop st1 = loop st2 /\ conn st1 = conn st2)
  /\ (forall v b d, json_Marshal v = inl b -> caller_slice (heap st) d = true ->
        bytes_at (heap st) d = b ->
        exists st1 st2,
          run [CallSendJson tid mb v; SendTest tid; SendEval tid; LoopMessage tid;
               LoopWrite] st = Some st1
          /\ run [CallSendBytes tid mb d; SendTest tid; SendEval tid; LoopMessage tid;
                  LoopWrite] st = Some st2
          /\ events (sink (env st1)) = events (sink (env st2))
          /\ producers st1 !! tid = producers st2 !! tid
          /\ loop st1 = loop st2 /\ conn st1 = conn st2).
Proof.
  intros Ho Hl Hp Hs.
  assert (forall d, caller_slice (heap st) d = true ->
   exists st',
     run [CallSendBytes tid mb d; SendTest tid; SendEval tid; LoopMessage tid; LoopWrite]
       st = Some st'
     /\ events (sink (env st')) =
        events (sink (env st))
        ++ calls (heap st) {| id := id m; event := event m; data := d |} (env st)
     /\ store st' !! mb = Some {| id := id m; event := event m; data := d |}
     /\ producers st' !! tid = Some (Idle (Some None))
     /\ loop st' = Waiting /\ conn st' = conn st /\ heap st' = heap st) as Hbytes.
  { intros d Hd. eexists. split.
    + apply (send_delivered st st tid mb r m (set_data d)); try done.
      by rewrite exec_SendBytes, Hd.
    + cbn [env loop conn store producers heap with_loop with_env with_producer
           with_store with_heap].
      rewrite on_message_events, !lookup_insert_eq. done. }
  assert (forall l b d,
            exec l st =
              update_message tid mb (set_data (fresh_slice b (heap st)))
                (fun _ => AtSend mb) (with_heap (alloc false b (heap st)) st) ->
            caller_slice (heap st) d = true -> bytes_at (heap st) d = b ->
            exists st1 st2,
              run [l; SendTest tid; SendEval tid; LoopMessage tid; LoopWrite] st =
                Some st1
              /\ run [CallSendBytes tid mb d; SendTest tid; SendEval tid;
                      LoopMessage tid; LoopWrite] st = Some st2
              /\ events (sink (env st1)) = events (sink (env st2))
              /\ producers st1 !! tid = producers st2 !! tid
              /\ loop st1 = loop st2 /\ conn st1 = conn st2) as Hsame.
  { intros l b d Hex Hd Hb.
    destruct (send_fresh_delivered st tid mb r m b l Hex Ho Hl Hp Hs)
      as (st1 & Hrun1 & _ & Hb1 & Hev1 & _ & Hp1 & Hl1 & Hc1).
    destruct (Hbytes d Hd) as (st2 & Hrun2 & Hev2 & _ & Hp2 & Hl2 & Hc2 & _).
    exists st1, st2. split; [exact Hrun1|]. split; [exact Hrun2|].
    split; [|split; [congruence|split; congruence]].
    rewrite Hev1, Hev2, !calls_eq. cbn [id event data]. by rewrite Hb1, Hb. }
  split; [exact Hbytes|]. split; [|split; [|split]].
  - intros s.
    by apply (send_fresh_delivered st tid mb r m (bytes_of s)
                (CallSendString tid mb s) (exec_SendString st tid mb s)).
  - intros v b Hm.
    by apply (send_fresh_delivered st tid mb r m b
                (CallSendJson tid mb v) (exec_SendJson st tid mb v b Hm)).
  - intros s d. apply Hsame, exec_SendString.
  - intros v b d Hm. by apply Hsame, exec_SendJson.
Qed.

(** X12.  The sends of the connection itself build a fresh message and send
    it: what reaches the wire is the data line alone, with no id and no
    event line, for [SendBytes] with the bytes of the caller's slice, for
    [SendString] and, when [json.Marshal] succeeds, for [SendJson] with the
    marshalled bytes. *)
Theorem connection_send_goes_through (st : State) (tid mb : nat)
    (r : option (option error)) :
  isOpen (conn st) = true -> loop st = Waiting ->
  producers st !! tid = Some (Idle r) -> store st !! mb = None ->
  (forall d, caller_slice (heap st) d = true -> exists st',
     run (Connection_SendBytes tid mb d
          ++ [SendTest tid; SendEval tid; LoopMessage tid; LoopWrite]) st = Some st'
     /\ wire (events (sink (env st'))) =
        wire (events (sink (env st)))
        ++ bytes_of "data: " ++ bytes_at (heap st) d ++ [LF; LF]
     /\ producers st' !! tid = Some (Idle (Some None)))
  /\ (forall s, exists st',
     run (Connection_SendString tid mb s
          ++ [SendTest tid; SendEval tid; LoopMessage tid; LoopWrite]) st = Some st'
     /\ wire (events (sink (env st'))) =
        wire (events (sink (env st))) ++ bytes_of "data: " ++ bytes_of s ++ [LF; LF]
     /\ producers st' !! tid = Some (Idle (Some None)))
  /\ (forall v d, json_Marshal v = inl d -> exists st',
     run (Connection_SendJson tid mb v
          ++ [SendTest tid; SendEval tid; LoopMessage tid; LoopWrite]) st = Some st'
     /\ wire (events (sink (env st'))) =
        wire (events (sink (env st))) ++ bytes_of "data: " ++ d ++ [LF; LF]
     /\ producers st' !! tid = Some (Idle (Some None))).
Proof.
  intros Ho Hl Hp Hs.
  set (st1 := with_store (<[mb := zero_Message]> (store st)) st).
  assert (run [CallBuildMessage tid mb] st = Some st1) as Hbuild.
  { simpl. by rewrite Hp, Hs. }
  assert (store st1 !! mb = Some zero_Message) as Hs1.
  { subst st1. cbn [store with_store]. by rewrite lookup_insert_eq. }
  assert (forall l b,
            exec l st1 =
              update_message tid mb (set_data (fresh_slice b (heap st1)))
                (fun _ => AtSend mb) (with_heap (alloc false b (heap st1)) st1) ->
            exists st',
              run ([CallBuildMessage tid mb; l]
                   ++ [SendTest tid; SendEval tid; LoopMessage tid; LoopWrite]) st =
                Some st'
              /\ wire (events (sink (env st'))) =
                 wire (events (sink (env st))) ++ bytes_of "data: " ++ b ++ [LF; LF]
              /\ producers st' !! tid = Some (Idle (Some None))) as Hfresh.
  { intros l b Hex.
    destruct (send_fresh_delivered st1 tid mb r zero_Message b l Hex Ho Hl Hp Hs1)
      as (st' & Hrun & _ & Hb & Hev & _ & Hr & _).
    exists st'. split; [|split; [|exact Hr]].
    - change ([CallBuildMessage tid mb; l]
              ++ [SendTest tid; SendEval tid; LoopMessage tid; LoopWrite])
        with ([CallBuildMessage tid mb]
              ++ [l; SendTest tid; SendEval tid; LoopMessage tid; LoopWrite]).
      by rewrite run_app, Hbuild.
    - rewrite Hev, wire_app. fold (written (heap st')
        {| id := id zero_Message; event := event zero_Message;
           data := fresh_slice b (heap st1) |} (env st1)).
      rewrite written_eq. cbn [id event data zero_Message String.length Nat.ltb
                               Nat.leb app].
      by rewrite Hb. }
  split; [|split].
  - intros d Hd. eexists. split.
    + unfold Connection_SendBytes.
      change ([CallBuildMessage tid mb; CallSendBytes tid mb d]
              ++ [SendTest tid; SendEval tid; LoopMessage tid; LoopWrite])
        with ([CallBuildMessage tid mb]
              ++ [CallSendBytes tid mb d; SendTest tid; SendEval tid;
                  LoopMessage tid; LoopWrite]).
      rewrite run_app, Hbuild.
      apply (send_delivered st1 st1 tid mb r zero_Message (set_data d)); try done.
      rewrite exec_SendBytes. change (heap st1) with (heap st). by rewrite Hd.
    + cbn [env producers heap with_loop with_env with_producer with_store with_heap].
      rewrite on_message_wire, written_eq, lookup_insert_eq. done.
  - intros s. apply (Hfresh (CallSendString tid mb s) (bytes_of s)).
    apply exec_SendString.
  - intros v d Hm. apply (Hfresh (CallSendJson tid mb v) d).
    by apply exec_SendJson.
Qed.

(** X13.  From [Upgrade] to the wire: on a flusher, a caller that builds a
    message, gives it an id and an event and sends a string gets nil back,
    and the response writer has received the three header settings, the
    flush, and then the three lines of the message and the flush after it,
    and nothing else; the data line holds the bytes of the string, kept in
    the one array of the connection's memory. *)
Theorem Upgrade_then_send (w : ResponseWriter) (n : nat)
    (callers : gmap nat Producer) (tid mb : nat) (r : option (option error))
    (a b s : string) :
  flusher w = true -> callers !! tid = Some (Idle r) ->
  exists st0 st',
    start (Upgrade w n) callers = Some st0
    /\ run [CallBuildMessage tid mb; CallWithId tid mb a; CallWithEvent tid mb b;
            CallSendString tid mb s; SendTest tid; SendEval tid; LoopMessage tid;
            LoopWrite] st0 = Some st'
    /\ events (sink (env st')) =
       events w
       ++ [EvSetHeader "Content-Type" "text/event-stream";
           EvSetHeader "Cache-Control" "no-cache";
           EvSetHeader "Connection" "keep-alive";
           EvFlush]
       ++ calls (heap st')
            {| id := a; event := b; data := fresh_slice (bytes_of s) [] |} (env st0)
    /\ heap st' = alloc false (bytes_of s) []
    /\ bytes_at (heap st') (fresh_slice (bytes_of s) []) = bytes_of s
    /\ producers st' !! tid = Some (Idle (Some None))
    /\ IsOpen st' = true /\ loop st' = Waiting.
Proof.
  intros Hf Hp. unfold start, Upgrade. rewrite Hf. cbn [up_conn up_go up_writer].
  match goal with
  | |- exists st0 st', Some ?x = Some st0 /\ _ => set (st0 := x); exists st0
  end.
  assert (run [CallBuildMessage tid mb] st0 =
          Some (with_store (<[mb := zero_Message]> (store st0)) st0)) as Hbuild.
  { cbn [run exec]. subst st0. cbn [producers store]. by rewrite Hp, lookup_empty. }
  set (st1 := with_producer tid (Idle r)
                (with_store (<[mb := {| id := a; event := b; data := nil_slice |}]>
                               (store st0)) st0)).
  assert (run ([CallBuildMessage tid mb]
               ++ [CallWithId tid mb a; CallWithEvent tid mb b]) st0 = Some st1)
    as Hfields.
  { rewrite run_app, Hbuild.
    rewrite (two_updates _ tid mb _ _ (set_id a) (set_event b)
               (fun m => {| id := a; event := b; data := data m |})) by done.
    cbn [producers store with_store with_heap]. subst st1 st0. cbn [producers store].
    rewrite Hp, lookup_insert_eq. unfold with_producer, with_store. simpl.
    by rewrite insert_insert_eq. }
  destruct (send_fresh_delivered st1 tid mb r
              {| id := a; event := b; data := nil_slice |} (bytes_of s)
              (CallSendString tid mb s) (exec_SendString st1 tid mb s))
    as (st' & Hrun & Hh & Hb & Hev & _ & Hr & Hl & Hc).
  { by subst st1 st0. }
  { by subst st1 st0. }
  { subst st1. cbn [producers with_producer]. by rewrite lookup_insert_eq. }
  { subst st1. cbn [store with_producer with_store]. by rewrite lookup_insert_eq. }
  assert (heap st1 = []) as Hh1 by (by subst st1 st0).
  rewrite Hh1 in *.
  exists st'. split; [reflexivity|]. split.
  { change [CallBuildMessage tid mb; CallWithId tid mb a; CallWithEvent tid mb b;
            CallSendString tid mb s; SendTest tid; SendEval tid; LoopMessage tid;
            LoopWrite]
      with (([CallBuildMessage tid mb]
             ++ [CallWithId tid mb a; CallWithEvent tid mb b])
            ++ [CallSendString tid mb s; SendTest tid; SendEval tid;
                LoopMessage tid; LoopWrite]).
    rewrite run_app, Hfields. exact Hrun. }
  split.
  { rewrite Hev. cbn [id event].
    subst st1 st0. cbn [env sink events Flush Header_Set with_producer with_store].
    by rewrite <- !app_assoc. }
  split; [exact Hh|]. split; [exact Hb|]. split; [exact Hr|].
  split; [|exact Hl]. unfold IsOpen. rewrite Hc. by subst st1 st0.
Qed.

(** ** Cancellation *)

(** X14.  A request context that is done does not take precedence over a
    message that is ready: with both at hand the loop may still receive the
    message, write and flush it, return nil to the sender, and only then
    stop. *)
Theorem done_does_not_preempt (st : State) (tid : nat) (m : Message) :
  ctx_done st = true -> loop st = Waiting ->
  producers st !! tid = Some (Offering m) ->
  exists st',
    run [LoopMessage tid; LoopWrite; LoopDone] st = Some st'
    /\ events (sink (env st')) = events (sink (env st)) ++ calls (heap st) m (env st)
    /\ producers st' !! tid = Some (Idle (Some None))
    /\ loop st' = Stopped /\ IsOpen st' = false.
Proof.
  intros Hd Hl Hp. eexists. split.
  - simpl. rewrite Hl, Hp. simpl. rewrite Hd. reflexivity.
  - cbn [env producers loop conn IsOpen with_loop with_env with_producer with_conn
         close_conn isOpen with_heap].
    by rewrite on_message_events, lookup_insert_eq.
Qed.

(** X15.  Once the request context is done the loop is at most two of its
    own steps away from returning: it writes the message it holds, if any,
    and takes the branch of the done context; [IsOpen] then reports false. *)
Theorem loop_can_stop_after_cancel (st : State) :
  loop st <> Stopped ->
  exists ls st',
    Forall (fun l => by_loop l = true) ls /\ length ls <= 2
    /\ run (Cancel :: ls) st = Some st'
    /\ loop st' = Stopped /\ IsOpen st' = false
    /\ producers st' = producers st /\ store st' = store st.
Proof.
  intros Hl. destruct (loop st) as [|m|] eqn:Hloop; [| |done].
  - exists [LoopDone]. eexists. split; [by repeat constructor|]. split; [simpl; lia|].
    split; [simpl; rewrite Hloop; reflexivity|]. done.
  - exists [LoopWrite; LoopDone]. eexists.
    split; [by repeat constructor|]. split; [simpl; lia|].
    split; [simpl; rewrite Hloop; reflexivity|]. done.
Qed.

(** ** The older copy's Upgrade *)

(** X16.  [Upgrade] of the older copy: without a flusher it returns the same
    error and touches nothing; with one it makes two channels, starts the
    loop and sets the three headers, and its calls on the response writer
    end there, so the headers are not flushed before the first message. *)
Theorem Part000_Upgrade_outcomes (w : ResponseWriter) (n : nat) :
  (flusher w = false ->
     Part000.up_err (Part000.Upgrade w n) =
       Some (errors_New "streaming not supported")
     /\ Part000.up_conn (Part000.Upgrade w n) = None
     /\ Part000.up_go (Part000.Upgrade w n) = None
     /\ Part000.up_writer (Part000.Upgrade w n) = w
     /\ Part000.up_nchan (Part000.Upgrade w n) = n)
  /\ (flusher w = true ->
     Part000.up_err (Part000.Upgrade w n) = None
     /\ Part000.up_conn (Part000.Upgrade w n) =
        Some {| Part000.messages := n; Part000.shutdown := S n;
                Part000.isOpen := true |}
     /\ Part000.up_go (Part000.Upgrade w n) = Some Waiting
     /\ Part000.up_nchan (Part000.Upgrade w n) = S (S n)
     /\ events (Part000.up_writer (Part000.Upgrade w n)) =
        events w ++ [EvSetHeader "Content-Type" "text/event-stream";
                     EvSetHeader "Cache-Control" "no-cache";
                     EvSetHeader "Connection" "keep-alive"]
     /\ header (Part000.up_writer (Part000.Upgrade w n)) =
        header (up_writer (Upgrade w n))
     /\ forall h m,
          events (Part000.on_message h m (Part000.up_writer (Part000.Upgrade w n)))
          = events w
            ++ [EvSetHeader "Content-Type" "text/event-stream";
                EvSetHeader "Cache-Control" "no-cache";
                EvSetHeader "Connection" "keep-alive"]
            ++ Part000.calls h m w).
Proof.
  split; intros Hf.
  - unfold Part000.Upgrade. by rewrite Hf.
  - assert (events (Part000.up_writer (Part000.Upgrade w n)) =
            events w ++ [EvSetHeader "Content-Type" "text/event-stream";
                         EvSetHeader "Cache-Control" "no-cache";
                         EvSetHeader "Connection" "keep-alive"]) as Hev.
    { unfold Part000.Upgrade. rewrite Hf. simpl. by rewrite <- !app_assoc. }
    assert (forall h m,
              events (Part000.on_message h m (Part000.up_writer (Part000.Upgrade w n)))
              = events w
                ++ [EvSetHeader "Content-Type" "text/event-stream";
                    EvSetHeader "Cache-Control" "no-cache";
                    EvSetHeader "Connection" "keep-alive"]
                ++ Part000.calls h m w) as Hm.
    { intros h m. rewrite Part000_on_message_events, Part000_calls_eq, Hev.
      by rewrite <- app_assoc. }
    unfold Part000.Upgrade, Upgrade in *. rewrite Hf in *.
    cbn [Part000.up_err Part000.up_conn Part000.up_go Part000.up_nchan
         Part000.up_writer up_writer] in *.
    repeat split; try done.
Qed.

(** ** Acknowledged sends and failed writes *)

(** X17.  A send that has returned was received: if a caller that offered a
    message is outside the package at the end of a schedule, that message is
    among those the loop received along the schedule. *)
Theorem returned_send_was_received (ls : list Label) (st st' : State) (tid : nat)
    (m : Message) (r : option (option error)) :
  run ls st = Some st' ->
  producers st !! tid = Some (Offering m) ->
  producers st' !! tid = Some (Idle r) ->
  m ∈ taken ls st.
Proof.
  revert st. induction ls as [|l ls IH]; intros st Hrun Hp Hp'; simpl in Hrun.
  - simplify_eq.
  - simpl. destruct (exec l st) as [st1|] eqn:He; [|done].
    assert (l = LoopMessage tid \/ l <> LoopMessage tid) as [->|Hne].
    { destruct l as [| | | | | | | | |t| | | | | | |]; try (right; discriminate).
      destruct (decide (t = tid)) as [->|Hd]; [by left|right; congruence]. }
    + assert (held (loop st1) = [m]) as ->.
      { exec_inv He. done. }
      by left.
    + pose proof (exec_keeps_offer l st st1 tid m He Hp Hne) as Hp1.
      specialize (IH st1 Hrun Hp1 Hp').
      destruct l; try done. apply elem_of_app. by right.
Qed.

(** X18.  A failed write does not end anything: the loop still makes all
    the writes of the message and the flush, goes back to waiting, and the
    connection stays as open as it was, whatever the response writer
    answers. *)
Theorem write_failure_keeps_going (st : State) (m : Message) :
  loop st = Holding m ->
  exists st',
    exec LoopWrite st = Some st'
    /\ events (sink (env st')) = events (sink (env st)) ++ calls (heap st) m (env st)
    /\ loop st' = Waiting /\ conn st' = conn st /\ ctx_done st' = ctx_done st
    /\ producers st' = producers st /\ store st' = store st /\ heap st' = heap st
    /\ length (delivered (env st')) + length (logged (env st')) =
       length (delivered (env st)) + length (logged (env st))
       + length (failures (take (writes_for m) (faults (sink (env st))))).
Proof.
  intros Hl. eexists. split; [simpl; rewrite Hl; reflexivity|].
  cbn [env loop conn ctx_done producers store heap with_loop with_env with_heap].
  rewrite on_message_events.
  destruct (on_message_accounted (heap st) m (env st)) as (_ & _ & Hd & Hlog).
  rewrite Hd, Hlog, !length_app, length_fmap.
  repeat split.
  pose proof (take_drop (receivers (env st))
                (failures (take (writes_for m) (faults (sink (env st)))))) as Htd.
  apply (f_equal length) in Htd. rewrite length_app in Htd. lia.
Qed.

(** X19.  For every message the loop makes between one and three writes, one
    per non-empty optional field and one for the data, and then exactly one
    flush; the data line is written even when the data is empty. *)
Theorem one_flush_per_message (h : Heap) (m : Message) (e : Env) :
  exists ws,
    calls h m e = (EvWrite <$> ws) ++ [EvFlush]
    /\ length ws = writes_for m
    /\ 1 <= length ws <= 3
    /\ last ws = Some (bytes_of "data: " ++ bytes_at h (data m) ++ [LF; LF])
    /\ written h m e = concat ws.
Proof.
  rewrite written_eq, calls_eq. unfold writes_for.
  destruct (0 <? String.length (id m))%nat, (0 <? String.length (event m))%nat.
  - exists [bytes_of "id: " ++ bytes_of (id m) ++ [LF];
            bytes_of "event: " ++ bytes_of (event m) ++ [LF];
            bytes_of "data: " ++ bytes_at h (data m) ++ [LF; LF]].
    cbn [fmap list_fmap app length last concat].
    rewrite <- !app_assoc, app_nil_r. repeat split; lia.
  - exists [bytes_of "id: " ++ bytes_of (id m) ++ [LF];
            bytes_of "data: " ++ bytes_at h (data m) ++ [LF; LF]].
    cbn [fmap list_fmap app length last concat].
    rewrite <- !app_assoc, app_nil_r. repeat split; lia.
  - exists [bytes_of "event: " ++ bytes_of (event m) ++ [LF];
            bytes_of "data: " ++ bytes_at h (data m) ++ [LF; LF]].
    cbn [fmap list_fmap app length last concat].
    rewrite <- !app_assoc, app_nil_r. repeat split; lia.
  - exists [bytes_of "data: " ++ bytes_at h (data m) ++ [LF; LF]].
    cbn [fmap list_fmap app length last concat].
    rewrite app_nil_r. repeat split; lia.
Qed.

End Pipeline.

Arguments CallBuildMessage {Value}.
Arguments CallWithId {Value}.
Arguments CallWithEvent {Value}.
Arguments CallSendBytes {Value}.
Arguments CallSendString {Value}.
Arguments CallSendJson {Value}.
Arguments CallClose {Value}.
Arguments SendTest {Value}.
Arguments SendEval {Value}.
Arguments LoopMessage {Value}.
Arguments LoopWrite {Value}.
Arguments LoopShutdown {Value}.
Arguments LoopDone {Value}.
Arguments Cancel {Value}.
Arguments Listen {Value}.
Arguments exec {Value}.
Arguments run {Value}.
Arguments MakeBuffer {Value}.
Arguments WriteBuffer {Value}.
Arguments taken {Value}.
Arguments wrote {Value}.
Arguments writes_to {Value}.
Arguments no_store {Value}.
Arguments builder_of {Value}.

(** ** The statements at work on concrete inputs *)

(** The README's example: the three lines and the blank line. *)
Example readme_message_on_the_wire :
  written sample_heap readme_message sample_env =
  bytes_of "id: id" ++ [LF] ++ bytes_of "event: event" ++ [LF]
  ++ bytes_of "data: data" ++ [LF] ++ [LF].
Proof. reflexivity. Qed.

Example bare_message_on_the_wire :
  written sample_heap bare_message sample_env = bytes_of "data: token" ++ [LF; LF].
Proof. reflexivity. Qed.

Lemma message_with_id_and_event_witness :
  id readme_message <> "" /\ event readme_message <> ""
  /\ written sample_heap readme_message sample_env =
       (bytes_of "id: " ++ bytes_of "id" ++ [LF])
       ++ (bytes_of "event: " ++ bytes_of "event" ++ [LF])
       ++ (bytes_of "data: " ++ bytes_of "data" ++ [LF])
       ++ [LF].
Proof.
  split; [simpl; discriminate|]. split; [simpl; discriminate|].
  apply (message_with_id_and_event sample_heap readme_message sample_env); simpl; discriminate.
Defined.

Lemma empty_fields_omitted_witness :
  id bare_message = "" /\ event bare_message = ""
  /\ calls sample_heap bare_message sample_env =
       [EvWrite (bytes_of "data: " ++ bytes_of "token" ++ [LF; LF]); EvFlush]
  /\ (EvWrite (bytes_of "id: " ++ [LF]) ∉ calls sample_heap bare_message sample_env)
  /\ (EvWrite (bytes_of "event: " ++ [LF]) ∉ calls sample_heap bare_message sample_env)
  /\ (forall l, l ∈ split_lines (written sample_heap bare_message sample_env) ->
                ~ bytes_of "id: " `prefix_of` l)
  /\ (forall l, l ∈ split_lines (written sample_heap bare_message sample_env) ->
                ~ bytes_of "event: " `prefix_of` l).
Proof.
  split; [reflexivity|]. split; [reflexivity|].
  pose proof (empty_fields_omitted sample_heap bare_message sample_env) as [Hid Hev].
  destruct (Hid eq_refl) as (Hc & _ & _ & Hn & Hlines).
  destruct (Hev eq_refl) as (_ & _ & _ & Hn' & Hlines').
  assert (LF ∉ bytes_of "") as Hempty by apply not_elem_of_nil.
  assert (LF ∉ bytes_at sample_heap (data bare_message)) as Hdata.
  { intros H. cbn in H.
    repeat (apply elem_of_cons in H as [H|H]; [discriminate H|]).
    by apply elem_of_nil in H. }
  split; [exact Hc|]. split; [exact Hn|]. split; [exact Hn'|].
  split; [exact (Hlines Hempty Hdata)|exact (Hlines' Hempty Hdata)].
Defined.

(** A data value that carries a second line: the line reaches the response
    writer as a line of its own. *)
Example second_line_passes_through :
  written injecting_heap injecting_message sample_env =
  bytes_of "data: x" ++ [LF] ++ bytes_of "id: " ++ [LF] ++ [LF].
Proof. reflexivity. Qed.

(** A message with an empty id whose output holds an [id: ] line all the
    same, and a bare one: the second line of its data. *)
Lemma data_can_hold_an_id_line :
  id injecting_message = ""
  /\ LF ∈ bytes_at injecting_heap (data injecting_message)
  /\ split_lines (written injecting_heap injecting_message sample_env) =
     [bytes_of "data: x"; bytes_of "id: "; []; []]
  /\ bytes_of "id: " ∈ split_lines (written injecting_heap injecting_message sample_env)
  /\ exists head tail,
       written injecting_heap injecting_message sample_env =
       head ++ [LF] ++ bytes_of "id: " ++ [LF] ++ tail.
Proof.
  split; [reflexivity|]. split; [right; left|]. split; [reflexivity|].
  split; [right; left|].
  exists (bytes_of "data: x"), [LF]. reflexivity.
Qed.


Lemma send_respects_isOpen_witness :
  isOpen (conn closed_state) = false
  /\ exec sample_Marshal (SendTest 0) closed_state =
     Some (with_producer 0 (Idle (Some (Some closed_error))) closed_state)
  /\ (exists st',
       run sample_Marshal [SendTest 1; SendTest 0] closed_state = Some st'
       /\ producers st' !! 0 = Some (Idle (Some (Some closed_error)))
       /\ producers st' !! 1 = Some (Idle (Some (Some closed_error)))
       /\ store st' = store closed_state)
  /\ isOpen (conn open_state) = true
  /\ run sample_Marshal [SendTest 0; SendEval 0; LoopMessage 0] open_state =
     Some (with_producer 0 (Idle (Some None))
             (with_loop (Holding readme_message) open_state)).
Proof.
  pose proof (send_respects_isOpen Sample sample_Marshal closed_state) as [Hc _].
  pose proof (send_respects_isOpen Sample sample_Marshal open_state) as [_ Ho].
  destruct (Hc eq_refl) as (Hone & Hmany & _).
  split; [reflexivity|]. split; [apply (Hone 0 0); reflexivity|]. split.
  - destruct (Hmany [1; 0]) as (st' & Hrun & Hin & _ & _ & _ & _ & Hs & _).
    + apply NoDup_cons. split; [|apply NoDup_singleton].
      intros Hin. apply list_elem_of_singleton in Hin. discriminate Hin.
    + intros t Ht. apply elem_of_cons in Ht as [->|Ht]; [by exists 1|].
      apply list_elem_of_singleton in Ht as ->. by exists 0.
    + exists st'. split; [exact Hrun|].
      split; [apply Hin; right; left|]. split; [apply Hin; left|exact Hs].
  - split; [reflexivity|].
    apply (Ho eq_refl 0 0 readme_message); reflexivity.
Defined.

Lemma SendJson_unserializable_witness :
  sample_Marshal (Unsupported "json: unsupported type: chan int") =
    inr (errors_New "json: unsupported type: chan int")
  /\ producers open_state !! 2 = Some (Idle None)
  /\ store open_state !! 1 = Some bare_message
  /\ exists st',
       exec sample_Marshal
         (CallSendJson 2 1 (Unsupported "json: unsupported type: chan int"))
         open_state = Some st'
       /\ producers st' !! 2 =
          Some (Idle (Some (Some (errors_New "json: unsupported type: chan int"))))
       /\ store st' = store open_state
       /\ env st' = env open_state.
Proof.
  split; [reflexivity|]. split; [reflexivity|]. split; [reflexivity|].
  destruct (SendJson_unserializable Sample sample_Marshal open_state 2 1
              (Unsupported "json: unsupported type: chan int")
              (errors_New "json: unsupported type: chan int") None bare_message)
    as (st' & He & Hp & Hs & _ & Henv & _); [reflexivity..|].
  exists st'. done.
Defined.

Lemma Upgrade_without_flusher_witness :
  flusher (mkWriter false ∅ [] []) = false
  /\ up_err (Upgrade (mkWriter false ∅ [] []) 0) =
     Some (errors_New "streaming not supported")
  /\ up_conn (Upgrade (mkWriter false ∅ [] []) 0) = None
  /\ up_go (Upgrade (mkWriter false ∅ [] []) 0) = None
  /\ start (Upgrade (mkWriter false ∅ [] []) 0) ∅ = None.
Proof.
  split; [reflexivity|].
  destruct (Upgrade_without_flusher (mkWriter false ∅ [] []) 0 ∅ eq_refl)
    as (He & Hc & _ & _ & _ & _ & Hg & Hs).
  done.
Defined.

Lemma Upgrade_sets_headers_and_flushes_witness :
  flusher sample_writer = true
  /\ events (up_writer (Upgrade sample_writer 0)) =
     [EvSetHeader "Content-Type" "text/event-stream";
      EvSetHeader "Cache-Control" "no-cache";
      EvSetHeader "Connection" "keep-alive";
      EvFlush]
  /\ header (up_writer (Upgrade sample_writer 0)) !! "Content-Type" =
     Some ["text/event-stream"]
  /\ Part000.up_err (Part000.Upgrade sample_writer 0) = None
  /\ events (Part000.up_writer (Part000.Upgrade sample_writer 0)) =
     [EvSetHeader "Content-Type" "text/event-stream";
      EvSetHeader "Cache-Control" "no-cache";
      EvSetHeader "Connection" "keep-alive"].
Proof.
  split; [reflexivity|].
  destruct (Upgrade_sets_headers_and_flushes sample_writer 0 eq_refl)
    as (_ & _ & _ & Hev & Hct & _ & _ & _ & Herr & _ & _ & Hev0 & _).
  split; [exact Hev|]. split; [exact Hct|]. split; [exact Herr|exact Hev0].
Defined.

(** The older copy at work on a flusher: [Upgrade] succeeds, and no flush
    is among the calls the response writer has received when it returns. *)
Lemma older_Upgrade_does_not_flush :
  flusher sample_writer = true
  /\ Part000.up_err (Part000.Upgrade sample_writer 0) = None
  /\ Part000.up_conn (Part000.Upgrade sample_writer 0) =
     Some {| Part000.messages := 0; Part000.shutdown := 1; Part000.isOpen := true |}
  /\ events (Part000.up_writer (Part000.Upgrade sample_writer 0)) =
     [EvSetHeader "Content-Type" "text/event-stream";
      EvSetHeader "Cache-Control" "no-cache";
      EvSetHeader "Connection" "keep-alive"]
  /\ (EvFlush ∉ events (Part000.up_writer (Part000.Upgrade sample_writer 0))).
Proof.
  split; [reflexivity|]. split; [reflexivity|]. split; [reflexivity|].
  split; [reflexivity|].
  intros H. cbn in H.
  repeat (apply elem_of_cons in H as [H|H]; [discriminate H|]).
  by apply elem_of_nil in H.
Qed.

Lemma loop_ends_only_on_done_witness :
  loop open_state = Waiting
  /\ producers open_state !! 3 = Some Closing
  /\ exec sample_Marshal (LoopShutdown 3) open_state =
     Some (with_producer 3 (Idle None) open_state)
  /\ loop closed_state = Stopped
  /\ (forall st', run sample_Marshal [CallSendString 2 0 "late"; SendTest 2; Listen]
                    closed_state = Some st' ->
       loop st' = Stopped
       /\ events (sink (env st')) = events (sink (env closed_state))).
Proof.
  pose proof (loop_ends_only_on_done Sample sample_Marshal open_state)
    as (_ & Hshut & _).
  pose proof (loop_ends_only_on_done Sample sample_Marshal closed_state)
    as (_ & _ & _ & _ & _ & _ & Hterm).
  split; [reflexivity|]. split; [reflexivity|].
  split; [apply Hshut; reflexivity|]. split; [reflexivity|].
  intros st' Hrun. destruct (Hterm eq_refl _ _ Hrun) as (Hl & He & _). done.
Defined.

Lemma handoff_is_a_copy_witness :
  producers open_state !! 1 = Some (AtHandoff 1)
  /\ store open_state !! 1 = Some bare_message
  /\ loop open_state = Waiting
  /\ forall st2,
       run sample_Marshal
         ([SendEval 1; LoopMessage 1]
          ++ [CallWithId 1 1 "9"; CallWithEvent 2 1 "late";
              CallSendString 1 1 "other"])
         open_state = Some st2 ->
       loop st2 = Holding bare_message
       /\ exists st3,
            exec sample_Marshal LoopWrite st2 = Some st3
            /\ wire (events (sink (env st3))) =
               wire (events (sink (env open_state)))
               ++ written (heap open_state) bare_message (env open_state).
Proof.
  split; [reflexivity|]. split; [reflexivity|]. split; [reflexivity|].
  intros st2 Hrun.
  destruct (handoff_is_a_copy Sample sample_Marshal open_state 1 1 bare_message
              eq_refl eq_refl) as (_ & _ & Hafter).
  destruct (Hafter eq_refl) as [_ Hcopy].
  destruct (Hcopy [CallWithId 1 1 "9"; CallWithEvent 2 1 "late";
                   CallSendString 1 1 "other"] st2)
    as (Hl & (st3 & He & _ & Hw) & Hsame).
  - repeat constructor.
  - exact Hrun.
  - split; [exact Hl|]. exists st3. split; [exact He|].
    destruct Hsame as [_ Hsame].
    + right. exists {| caller_held := true; cells := bytes_of "token" |}.
      split; [reflexivity|]. right. repeat constructor.
    + rewrite <- Hsame. exact Hw.
Defined.

(** Caller 1's later changes to its builder do reach the store, and the
    loop still writes the message as it was handed over. *)
Example late_mutation_not_written :
  exists st3,
    run sample_Marshal
      [SendEval 1; LoopMessage 1; CallWithId 1 1 "9"; CallWithEvent 2 1 "late";
       CallSendString 1 1 "other"; LoopWrite]
      open_state = Some st3
    /\ store st3 !! 1 =
       Some {| id := "9"; event := "late";
               data := fresh_slice (bytes_of "other") sample_heap |}
    /\ bytes_at (heap st3) (fresh_slice (bytes_of "other") sample_heap) =
       bytes_of "other"
    /\ wire (events (sink (env st3))) = bytes_of "data: token" ++ [LF; LF].
Proof. eexists. split; [reflexivity|]. split; [reflexivity|]. split; reflexivity. Qed.

(** Three writes, the first and the last failing, one receiver waiting: the
    first error is delivered, the second is logged. *)
Example one_delivered_one_logged :
  let e := {| sink := sink (env flaky_state); receivers := 1;
              delivered := []; logged := [] |} in
  delivered (on_message sample_heap readme_message e) = [errors_New "broken pipe"]
  /\ logged (on_message sample_heap readme_message e) =
     ["sse write error: reset by peer"]
  /\ receivers (on_message sample_heap readme_message e) = 0
  /\ faults (sink (on_message sample_heap readme_message e)) = [].
Proof. repeat split. Qed.

Lemma no_listener_no_delivery_witness :
  exists st',
    run sample_Marshal [SendTest 0; SendEval 0; LoopMessage 0; LoopWrite] flaky_state
      = Some st'
    /\ receivers (env st') = 0 /\ delivered (env st') = []
    /\ logged (env st') =
       ["sse write error: broken pipe"; "sse write error: reset by peer"].
Proof.
  eexists. split; [reflexivity|].
  destruct (no_listener_no_delivery Sample sample_Marshal
              [SendTest 0; SendEval 0; LoopMessage 0; LoopWrite] flaky_state _
              ltac:(repeat (constructor; [discriminate|]); constructor)
              eq_refl eq_refl) as [Hr Hd].
  split; [exact Hr|]. split; [exact Hd|reflexivity].
Defined.

(** Every message of the sample connection has its data in memory. *)
Example open_state_settled : settled open_state.
Proof.
  split; [|split].
  - intros mb m H. unfold open_state in H. cbn [store] in H.
    apply lookup_insert_Some in H as [[_ <-]|[_ H]]; [right; simpl; lia|].
    apply lookup_singleton_Some in H as [_ <-]. right; simpl; lia.
  - intros tid m H. unfold open_state in H. cbn [producers] in H.
    repeat (apply lookup_insert_Some in H as [[_ H]|[_ H]]; [discriminate|]).
    apply lookup_singleton_Some in H as [_ H]. discriminate.
  - intros m H. discriminate.
Qed.

Lemma writer_sees_messages_in_order_witness :
  exists st',
    run sample_Marshal
      [SendEval 1; LoopMessage 1; SendTest 0; LoopWrite; SendEval 0; LoopMessage 0;
       LoopWrite] open_state = Some st'
    /\ taken sample_Marshal
         [SendEval 1; LoopMessage 1; SendTest 0; LoopWrite; SendEval 0; LoopMessage 0;
          LoopWrite] open_state = [bare_message; readme_message]
    /\ wire (events (sink (env st'))) =
       bytes_of "data: token" ++ [LF; LF]
       ++ bytes_of "id: id" ++ [LF] ++ bytes_of "event: event" ++ [LF]
       ++ bytes_of "data: data" ++ [LF; LF].
Proof.
  eexists. split; [reflexivity|]. split; [reflexivity|].
  destruct (writer_sees_messages_in_order Sample sample_Marshal
              [SendEval 1; LoopMessage 1; SendTest 0; LoopWrite; SendEval 0;
               LoopMessage 0; LoopWrite] open_state _ eq_refl)
    as (_ & _ & _ & Hold).
  destruct (Hold open_state_settled ltac:(repeat constructor)) as [_ H].
  exact H.
Defined.

Lemma only_the_loop_writes_witness :
  exists st',
    exec sample_Marshal (CallSendString 2 0 "late") open_state = Some st'
    /\ sink (env st') = sink (env open_state)
    /\ loop st' = loop open_state.
Proof.
  eexists. split; [reflexivity|].
  destruct (only_the_loop_writes Sample sample_Marshal
              (CallSendString 2 0 "late") open_state _ eq_refl)
    as (Hs & Hc & _).
  split; [apply Hs; discriminate|]. apply Hc. discriminate.
Defined.

Lemma blocked_forever_after_stop_witness :
  exists st',
    run sample_Marshal
      [CallWithId 2 0 "z"; CallSendString 2 0 "x"; SendTest 2; Cancel; Listen]
      stranded_state = Some st'
    /\ producers st' !! 0 = Some (Offering readme_message)
    /\ producers st' !! 1 = Some Closing.
Proof.
  eexists. split; [reflexivity|]. split.
  - destruct (blocked_forever_after_stop Sample sample_Marshal
                [CallWithId 2 0 "z"; CallSendString 2 0 "x"; SendTest 2; Cancel; Listen]
                stranded_state _ 0 (Offering readme_message)
                eq_refl eq_refl eq_refl eq_refl) as (p & Hp & _ & Ho & _).
    by rewrite (Ho _ eq_refl) in Hp.
  - destruct (blocked_forever_after_stop Sample sample_Marshal
                [CallWithId 2 0 "z"; CallSendString 2 0 "x"; SendTest 2; Cancel; Listen]
                stranded_state _ 1 Closing
                eq_refl eq_refl eq_refl eq_refl) as (p & Hp & _ & _ & Hc).
    by rewrite (Hc eq_refl) in Hp.
Defined.

Lemma send_can_miss_the_disconnect_witness :
  exists st1,
    run sample_Marshal [SendTest 0; Cancel; LoopDone; SendEval 0] open_state = Some st1
    /\ IsOpen st1 = false /\ loop st1 = Stopped
    /\ producers st1 !! 0 = Some (Offering readme_message).
Proof.
  destruct (send_can_miss_the_disconnect Sample sample_Marshal open_state 0 0
              readme_message eq_refl eq_refl eq_refl eq_refl)
    as (st1 & Hrun & Ho & Hl & Hp & _).
  exists st1. done.
Defined.

Lemma Close_waits_for_the_loop_witness :
  producers open_state !! 2 = Some (Idle None)
  /\ run sample_Marshal [CallClose 2; LoopShutdown 2] open_state =
     Some (with_producer 2 (Idle None) open_state)
  /\ run sample_Marshal [CallClose 2; LoopShutdown 2] closed_state = None.
Proof.
  split; [reflexivity|]. split.
  - apply (Close_waits_for_the_loop Sample sample_Marshal open_state 2 None eq_refl).
    reflexivity.
  - apply (Close_waits_for_the_loop Sample sample_Marshal closed_state 2 None eq_refl).
    discriminate.
Defined.

Lemma IsOpen_tells_loop_stopped_witness :
  exists st0 st',
    start (Upgrade sample_writer 0) {[ 0 := Idle None ]} = Some st0
    /\ run sample_Marshal [Cancel; LoopDone] st0 = Some st'
    /\ IsOpen st0 = true /\ loop st' = Stopped /\ IsOpen st' = false.
Proof.
  eexists. eexists. split; [reflexivity|]. split; [reflexivity|].
  destruct (IsOpen_tells_loop_stopped Sample sample_Marshal sample_writer 0
              {[ 0 := Idle None ]} _ _ [Cancel; LoopDone] eq_refl eq_refl)
    as (Ho & Hiff & _).
  split; [exact Ho|]. split; [reflexivity|]. apply Hiff. reflexivity.
Defined.

Lemma WithId_WithEvent_compose_witness :
  producers open_state !! 2 = Some (Idle None)
  /\ store open_state !! 1 = Some bare_message
  /\ exists st',
       run sample_Marshal [CallWithId 2 1 "7"; CallWithEvent 2 1 "tick"] open_state
         = Some st'
       /\ store st' !! 1 =
          Some {| id := "7"; event := "tick"; data := data bare_message |}.
Proof.
  split; [reflexivity|]. split; [reflexivity|].
  destruct (proj2 (proj2 (proj2
              (WithId_WithEvent_compose Sample sample_Marshal open_state 2 1 "7" "tick")))
              None bare_message eq_refl eq_refl) as (st' & Hrun & Hs & _).
  exists st'. done.
Defined.

Lemma builders_are_separate_witness :
  exists st',
    exec sample_Marshal (CallWithId 2 0 "z") open_state = Some st'
    /\ store st' !! 1 = Some bare_message
    /\ is_Some (store st' !! 0).
Proof.
  eexists. split; [reflexivity|].
  destruct (builders_are_separate Sample sample_Marshal (CallWithId 2 0 "z")
              open_state _ eq_refl) as (Hother & Hkeep & _).
  split.
  - rewrite (Hother 1); [reflexivity|discriminate].
  - apply (Hkeep 0 readme_message). reflexivity.
Defined.

Lemma builder_send_goes_through_witness :
  isOpen (conn open_state) = true /\ loop open_state = Waiting
  /\ producers open_state !! 2 = Some (Idle None)
  /\ store open_state !! 0 = Some readme_message
  /\ caller_slice (heap open_state) {| array := 1; off := 0; len := 5 |} = true
  /\ bytes_at (heap open_state) {| array := 1; off := 0; len := 5 |} = bytes_of "token"
  /\ exists st',
       run sample_Marshal
         [CallSendBytes 2 0 {| array := 1; off := 0; len := 5 |}; SendTest 2;
          SendEval 2; LoopMessage 2; LoopWrite] open_state = Some st'
       /\ events (sink (env st')) =
          [EvWrite (bytes_of "id: id" ++ [LF]);
           EvWrite (bytes_of "event: event" ++ [LF]);
           EvWrite (bytes_of "data: token" ++ [LF; LF]);
           EvFlush]
       /\ store st' !! 0 =
          Some {| id := "id"; event := "event";
                  data := {| array := 1; off := 0; len := 5 |} |}
       /\ producers st' !! 2 = Some (Idle (Some None)).
Proof.
  split; [reflexivity|]. split; [reflexivity|]. split; [reflexivity|].
  split; [reflexivity|]. split; [reflexivity|]. split; [reflexivity|].
  destruct (proj1 (builder_send_goes_through Sample sample_Marshal open_state 2 0 None
                     readme_message eq_refl eq_refl eq_refl eq_refl)
              {| array := 1; off := 0; len := 5 |} eq_refl)
    as (st' & Hrun & Hev & Hs & Hp & _).
  exists st'. done.
Defined.

Lemma connection_send_goes_through_witness :
  store open_state !! 5 = None
  /\ exists st',
       run sample_Marshal
         (Connection_SendJson Sample 2 5 (Encodable (bytes_of "{}"))
          ++ [SendTest 2; SendEval 2; LoopMessage 2; LoopWrite]) open_state = Some st'
       /\ wire (events (sink (env st'))) =
          wire (events (sink (env open_state))) ++ bytes_of "data: " ++ bytes_of "{}"
          ++ [LF; LF]
       /\ producers st' !! 2 = Some (Idle (Some None)).
Proof.
  split; [reflexivity|].
  apply (proj2 (proj2 (connection_send_goes_through Sample sample_Marshal open_state
                         2 5 None eq_refl eq_refl eq_refl eq_refl))
           (Encodable (bytes_of "{}")) (bytes_of "{}")).
  reflexivity.
Defined.

Lemma Upgrade_then_send_witness :
  flusher sample_writer = true
  /\ one_caller !! 0 = Some (Idle None)
  /\ exists st0 st',
       start (Upgrade sample_writer 0) one_caller = Some st0
       /\ run sample_Marshal
            [CallBuildMessage 0 0; CallWithId 0 0 "id"; CallWithEvent 0 0 "event";
             CallSendString 0 0 "data"; SendTest 0; SendEval 0; LoopMessage 0;
             LoopWrite] st0 = Some st'
       /\ producers st' !! 0 = Some (Idle (Some None))
       /\ IsOpen st' = true.
Proof.
  assert (one_caller !! 0 = Some (Idle None)) as Hc by reflexivity.
  split; [reflexivity|]. split; [exact Hc|].
  destruct (Upgrade_then_send Sample sample_Marshal sample_writer 0
              one_caller 0 0 None "id" "event" "data" eq_refl Hc)
    as (st0 & st' & Hs & Hrun & _ & _ & _ & Hp & Ho & _).
  exists st0, st'. done.
Defined.

Lemma done_does_not_preempt_witness :
  ctx_done racing_state = true /\ loop racing_state = Waiting
  /\ producers racing_state !! 0 = Some (Offering bare_message)
  /\ exists st',
       run sample_Marshal [LoopMessage 0; LoopWrite; LoopDone] racing_state = Some st'
       /\ events (sink (env st')) =
          events (sink (env racing_state))
          ++ calls (heap racing_state) bare_message (env racing_state)
       /\ loop st' = Stopped.
Proof.
  split; [reflexivity|]. split; [reflexivity|]. split; [reflexivity|].
  destruct (done_does_not_preempt Sample sample_Marshal racing_state 0 bare_message
              eq_refl eq_refl eq_refl) as (st' & Hrun & Hev & _ & Hl & _).
  exists st'. done.
Defined.

Lemma loop_can_stop_after_cancel_witness :
  loop open_state <> Stopped
  /\ exists ls st',
       length ls <= 2
       /\ run sample_Marshal (Cancel :: ls) open_state = Some st'
       /\ loop st' = Stopped /\ IsOpen st' = false.
Proof.
  split; [discriminate|].
  destruct (loop_can_stop_after_cancel Sample sample_Marshal open_state)
    as (ls & st' & _ & Hlen & Hrun & Hl & Ho & _); [discriminate|].
  exists ls, st'. done.
Defined.

Lemma Part000_Upgrade_outcomes_witness :
  flusher sample_writer = true
  /\ events (Part000.up_writer (Part000.Upgrade sample_writer 0)) =
     [EvSetHeader "Content-Type" "text/event-stream";
      EvSetHeader "Cache-Control" "no-cache";
      EvSetHeader "Connection" "keep-alive"]
  /\ flusher (mkWriter false ∅ [] []) = false
  /\ Part000.up_conn (Part000.Upgrade (mkWriter false ∅ [] []) 0) = None.
Proof.
  split; [reflexivity|]. split.
  - apply (proj2 (Part000_Upgrade_outcomes sample_writer 0) eq_refl).
  - split; [reflexivity|].
    apply (proj1 (Part000_Upgrade_outcomes (mkWriter false ∅ [] []) 0) eq_refl).
Defined.

Lemma returned_send_was_received_witness :
  exists st',
    run sample_Marshal [SendEval 0; LoopMessage 1; LoopWrite; CallWithId 1 1 "n"]
      (with_producer 1 (Offering bare_message)
         (with_producer 0 (AtHandoff 0) open_state)) = Some st'
    /\ producers st' !! 1 = Some (Idle (Some None))
    /\ bare_message ∈
       taken sample_Marshal [SendEval 0; LoopMessage 1; LoopWrite; CallWithId 1 1 "n"]
         (with_producer 1 (Offering bare_message)
            (with_producer 0 (AtHandoff 0) open_state)).
Proof.
  eexists. split; [reflexivity|]. split; [reflexivity|].
  eapply (returned_send_was_received Sample sample_Marshal _ _ _ 1 bare_message
            (Some None)); reflexivity.
Defined.

Lemma write_failure_keeps_going_witness :
  loop (with_loop (Holding readme_message) flaky_state) = Holding readme_message
  /\ exists st',
       exec sample_Marshal LoopWrite (with_loop (Holding readme_message) flaky_state)
         = Some st'
       /\ loop st' = Waiting /\ IsOpen st' = true
       /\ wire (events (sink (env st'))) = written sample_heap readme_message sample_env.
Proof.
  split; [reflexivity|].
  destruct (write_failure_keeps_going Sample sample_Marshal
              (with_loop (Holding readme_message) flaky_state) readme_message eq_refl)
    as (st' & He & Hev & Hl & Hc & _).
  exists st'. split; [exact He|]. split; [exact Hl|]. split.
  - unfold IsOpen. rewrite Hc. reflexivity.
  - rewrite Hev. reflexivity.
Defined.

(** On the closed sample connection [SendJson] of a value that
    [json.Marshal] refuses returns the error of [json.Marshal], which is
    not the error of [send].  On the open one caller 0 passes the test of
    [isOpen]; the client goes away and the loop returns before the caller
    reaches the channel; the call then never returns, along any schedule,
    and the response writer receives nothing. *)
Lemma send_can_fail_otherwise_or_hang :
  (isOpen (conn closed_state) = false
   /\ producers closed_state !! 2 = Some (Idle None)
   /\ exists st',
        run sample_Marshal
          (Connection_SendJson Sample 2 5
             (Unsupported "json: unsupported type: chan int"))
          closed_state = Some st'
        /\ producers st' !! 2 =
           Some (Idle (Some (Some (errors_New "json: unsupported type: chan int"))))
        /\ errors_New "json: unsupported type: chan int" <> closed_error)
  /\ (isOpen (conn open_state) = true
      /\ producers open_state !! 0 = Some (AtSend 0)
      /\ exists st1,
           run sample_Marshal [SendTest 0; Cancel; LoopDone; SendEval 0] open_state =
             Some st1
           /\ forall ls st2,
                run sample_Marshal ls st1 = Some st2 ->
                producers st2 !! 0 = Some (Offering readme_message)
                /\ sink (env st2) = sink (env open_state)).
Proof.
  split.
  - split; [reflexivity|]. split; [reflexivity|].
    eexists. split; [reflexivity|]. split; [reflexivity|discriminate].
  - split; [reflexivity|]. split; [reflexivity|].
    eexists. split; [reflexivity|].
    intros ls st2 Hrun.
    destruct (run_stopped_waits Sample sample_Marshal ls _ st2 0
                (Offering readme_message) Hrun eq_refl eq_refl eq_refl)
      as (p' & Hp' & _ & Ho & _).
    destruct (run_stopped Sample sample_Marshal ls _ st2 Hrun eq_refl) as [_ Hs].
    split; [|exact Hs]. by rewrite Hp', (Ho readme_message eq_refl).
Qed.

(** Caller 2 sends its buffer [token] with [SendBytes] on the open sample
    connection; the call returns nil and the loop holds the copy.  The
    caller then stores [X] at the start of its buffer, and the loop writes
    [Xoken]. *)
Lemma buffer_store_after_send_is_written :
  exists st2 st4,
    run sample_Marshal
      (Connection_SendBytes Sample 2 5 {| array := 1; off := 0; len := 5 |}
       ++ [SendTest 2; SendEval 2; LoopMessage 2]) open_state = Some st2
    /\ producers st2 !! 2 = Some (Idle (Some None))
    /\ loop st2 = Holding bare_message
    /\ written (heap st2) bare_message (env st2) = bytes_of "data: token" ++ [LF; LF]
    /\ run sample_Marshal [WriteBuffer 2 1 0 "X"%byte; LoopWrite] st2 = Some st4
    /\ wire (events (sink (env st4))) = bytes_of "data: Xoken" ++ [LF; LF]
    /\ wire (events (sink (env st4))) <> written (heap st2) bare_message (env st2).
Proof.
  eexists. eexists. split; [reflexivity|]. split; [reflexivity|].
  split; [reflexivity|]. split; [reflexivity|]. split; [reflexivity|].
  split; [reflexivity|discriminate].
Qed.
